(** * Climate data analyzer: anomaly detection and trend analysis

    A shallow embedding of [src/analysis/anomaly_detection.py] and
    [src/analysis/trend_analysis.py].

    Numbers.  A measurement is a finite double; its value is modelled by an
    exact rational ([Q]), so rounding is not part of the model.  Whatever a
    division may produce is an [xnum]: a finite rational, one of the two
    infinities, or NaN, with the IEEE-754 rules numpy follows for the
    special values (a non-zero value divided by zero is an infinity, zero
    divided by zero is NaN, every comparison with NaN is false).

    Libraries.  numpy's [sort], [median], [mean], [percentile] and
    [convolve] are written out from their documented definitions.
    [np.sqrt], [scipy.stats.norm.cdf] and scikit-learn's [IsolationForest]
    are interfaces ([SciLib], [SkLearn]) with the few laws the proofs use.

    Objects.  A method is a state transformer over the object it is called
    on ([Method]); an exception is a [Raise] outcome. *)

From Stdlib Require Import String Bool.
From Stdlib Require Import List ZArith QArith Qround Qabs Lia Lqa.
From Stdlib Require Import Permutation Sorted.
Import ListNotations.

Open Scope Q_scope.

(** ** Extended numbers *)

Inductive xnum : Type :=
| Fin (q : Q)
| PInf
| NInf
| NaN.

(** Same value (NaN is the same value as NaN): identity of results, not the
    [==] test of the language, which is [xeqb]. *)
Definition xeq (a b : xnum) : Prop :=
  match a, b with
  | Fin x, Fin y => x == y
  | PInf, PInf => True
  | NInf, NInf => True
  | NaN, NaN => True
  | _, _ => False
  end.

Definition Qltb (x y : Q) : bool := negb (Qle_bool y x).

Definition xeqb (a b : xnum) : bool :=
  match a, b with
  | Fin x, Fin y => Qeq_bool x y
  | PInf, PInf => true
  | NInf, NInf => true
  | _, _ => false
  end.

Definition xltb (a b : xnum) : bool :=
  match a, b with
  | NaN, _ | _, NaN => false
  | Fin x, Fin y => Qltb x y
  | NInf, NInf => false
  | NInf, _ => true
  | _, NInf => false
  | PInf, _ => false
  | Fin _, PInf => true
  end.

Definition xgtb (a b : xnum) : bool := xltb b a.

Definition xopp (a : xnum) : xnum :=
  match a with
  | Fin x => Fin (- x)
  | PInf => NInf
  | NInf => PInf
  | NaN => NaN
  end.

Definition xabs (a : xnum) : xnum :=
  match a with
  | Fin x => Fin (Qabs x)
  | PInf | NInf => PInf
  | NaN => NaN
  end.

Definition xadd (a b : xnum) : xnum :=
  match a, b with
  | NaN, _ | _, NaN => NaN
  | Fin x, Fin y => Fin (x + y)
  | PInf, NInf | NInf, PInf => NaN
  | PInf, _ | _, PInf => PInf
  | NInf, _ | _, NInf => NInf
  end.

Definition xsub (a b : xnum) : xnum := xadd a (xopp b).

(** The sign of a finite value selects the infinity of a product or of a
    quotient; a zero against an infinity is NaN. *)
Definition xscale_inf (x : Q) (pos : bool) : xnum :=
  if Qeq_bool x 0 then NaN
  else if Bool.eqb (Qltb 0 x) pos then PInf else NInf.

Definition xmul (a b : xnum) : xnum :=
  match a, b with
  | NaN, _ | _, NaN => NaN
  | Fin x, Fin y => Fin (x * y)
  | Fin x, PInf | PInf, Fin x => xscale_inf x true
  | Fin x, NInf | NInf, Fin x => xscale_inf x false
  | PInf, PInf | NInf, NInf => PInf
  | PInf, NInf | NInf, PInf => NInf
  end.

Definition xdiv (a b : xnum) : xnum :=
  match a, b with
  | NaN, _ | _, NaN => NaN
  | Fin x, Fin y =>
      if Qeq_bool y 0 then xscale_inf x true else Fin (x / y)
  | Fin _, (PInf | NInf) => Fin 0
  | PInf, Fin y => if Qltb y 0 then NInf else PInf
  | NInf, Fin y => if Qltb y 0 then PInf else NInf
  | (PInf | NInf), (PInf | NInf) => NaN
  end.


Definition finite (a : xnum) : Prop :=
  match a with
  | Fin _ => True
  | _ => False
  end.

(** ** Exceptions and methods *)

Inductive exn : Type :=
| IndexError
| ValueError
| ZeroDivisionError
| AttributeError
| NotFittedError.

Inductive result (A : Type) : Type :=
| Ok (a : A)
| Raise (e : exn).

Arguments Ok {A} a.
Arguments Raise {A} e.

Definition rbind {A B : Type} (r : result A) (k : A -> result B) : result B :=
  match r with
  | Ok a => k a
  | Raise e => Raise e
  end.

(** A method of an object whose state has type [S]: it returns a value or
    raises, and leaves the object in a state of its own making. *)
Definition Method (S A : Type) : Type := S -> result A * S.

Definition ret {S A : Type} (a : A) : Method S A := fun s => (Ok a, s).

Definition raise {S A : Type} (e : exn) : Method S A := fun s => (Raise e, s).

Definition bind {S A B : Type} (m : Method S A) (k : A -> Method S B)
  : Method S B :=
  fun s =>
    match m s with
    | (Ok a, s') => k a s'
    | (Raise e, s') => (Raise e, s')
    end.

Definition get {S : Type} : Method S S := fun s => (Ok s, s).

Definition put {S : Type} (s' : S) : Method S unit := fun _ => (Ok tt, s').

Definition lift {S A : Type} (r : result A) : Method S A := fun s => (r, s).

Declare Scope method_scope.
Delimit Scope method_scope with method.

Notation "x <- m ;; k" := (bind m (fun x => k))
  (at level 61, m at next level, right associativity) : method_scope.
Notation "' pat <- m ;; k" := (bind m (fun x => match x with pat => k end))
  (at level 61, pat pattern, m at next level, right associativity)
  : method_scope.
Notation "m ;;; k" := (bind m (fun _ => k))
  (at level 61, right associativity) : method_scope.

(** ** Library interfaces *)

(** [np.sqrt] and [scipy.stats.norm.cdf] on finite values.  Only the sign
    behaviour of the square root is used. *)
Class SciLib : Type := {
  np_sqrt : Q -> Q;
  norm_cdf : Q -> Q;
  np_sqrt_nonneg : forall x : Q, 0 <= x -> 0 <= np_sqrt x;
  np_sqrt_pos : forall x : Q, 0 < x -> 0 < np_sqrt x
}.

(** scikit-learn's isolation forest.  Fitting draws from a generator and
    returns the fitted trees with the generator it leaves behind; labels
    are [1] (inlier) and [-1] (outlier).  [rng_of_seed] is
    [np.random.RandomState(seed)]. *)
Class SkLearn : Type := {
  rng : Type;
  forest : Type;
  rng_of_seed : Z -> rng;
  fit_forest : Q -> rng -> list (list Q) -> result (forest * rng);
  predict : forest -> list (list Q) -> list Z;
  score_samples : forest -> list (list Q) -> list Q
}.

(** ** numpy on one-dimensional arrays of finite values *)

Module Np.

(** [np.sort]: ascending order. *)
Fixpoint insert (x : Q) (l : list Q) : list Q :=
  match l with
  | [] => [x]
  | y :: l' => if Qle_bool x y then x :: l else y :: insert x l'
  end.

Fixpoint sort (l : list Q) : list Q :=
  match l with
  | [] => []
  | x :: l' => insert x (sort l')
  end.

Definition sum (l : list Q) : Q := fold_left Qplus l 0.

Definition of_nat (n : nat) : Q := inject_Z (Z.of_nat n).

(** [np.mean]: NaN (and a warning) on an empty array. *)
Definition mean (l : list Q) : xnum :=
  match l with
  | [] => NaN
  | _ => Fin (sum l / of_nat (length l))
  end.

(** [np.median]: the middle element of the sorted array, or the mean of the
    two middle elements; NaN on an empty array. *)
Definition median (l : list Q) : xnum :=
  match l with
  | [] => NaN
  | _ =>
      let s := sort l in
      let n := length l in
      if Nat.even n
      then Fin ((nth (n / 2 - 1) s 0 + nth (n / 2) s 0) / 2)
      else Fin (nth (n / 2) s 0)
  end.

(** Linear interpolation between neighbours of a sorted array at the
    fractional position [h] (numpy's [_lerp] on [previous] and [next],
    [next] clipped to the last index). *)
Definition interpolate (s : list Q) (h : Q) : Q :=
  let previous := Z.to_nat (Qfloor h) in
  let next := Nat.min (previous + 1) (length s - 1) in
  let gamma := h - inject_Z (Qfloor h) in
  let a := nth previous s 0 in
  let b := nth next s 0 in
  a + (b - a) * gamma.

(** [np.percentile(l, p)], default method (linear): the virtual index is
    [(n - 1) * p / 100].  An empty array raises [IndexError]; a percentile
    outside [0, 100] raises [ValueError]. *)
Definition percentile (l : list Q) (p : Q) : result Q :=
  if negb (Qle_bool 0 p && Qle_bool p 100) then Raise ValueError
  else match l with
       | [] => Raise IndexError
       | _ => Ok (interpolate (sort l) (of_nat (length l - 1) * (p / 100)))
       end.

(** [np.std]: the population standard deviation
    [sqrt(mean(abs(x - mean) ** 2))]. *)
Definition std `{SciLib} (l : list Q) : xnum :=
  match mean l with
  | Fin m =>
      Fin (np_sqrt (sum (map (fun x => Qabs (x - m) * Qabs (x - m)) l)
                    / of_nat (length l)))
  | _ => NaN
  end.



(** [enumerate], [range(a, b)] and [np.arange(start, stop, step)]. *)
Definition enumerate {A : Type} (l : list A) : list (nat * A) :=
  combine (seq 0 (length l)) l.

Definition range (a b : nat) : list nat := seq a (b - a).

Definition arange (start stop step : nat) : list nat :=
  map (fun k => start + k * step)%nat
      (seq 0 ((stop - start + step - 1) / step)).

(** Full discrete convolution: entry [k] is the sum of [a[i] * v[k - i]]. *)
Definition convolve_full (a v : list Q) : list Q :=
  map (fun k =>
         sum (map (fun i =>
                     if (i <=? k)%nat then nth i a 0 * nth (k - i) v 0 else 0)
                  (seq 0 (length a))))
      (seq 0 (length a + length v - 1)).

(** [np.convolve(a, v, mode='same')]: the central [max(len a, len v)]
    entries of the full convolution, which start at index
    [(min(len a, len v) - 1) // 2]; an empty argument raises. *)
Definition convolve_same (a v : list Q) : result (list Q) :=
  match a, v with
  | [], _ | _, [] => Raise ValueError
  | _, _ =>
      let start := ((Nat.min (length a) (length v) - 1) / 2)%nat in
      Ok (firstn (Nat.max (length a) (length v))
                 (skipn start (convolve_full a v)))
  end.

(** Element-wise binary operation under numpy's broadcasting rule for
    one-dimensional arrays: equal lengths, or one side of length one. *)
Definition broadcast {A B C : Type} (f : A -> B -> C)
    (a : list A) (b : list B) : result (list C) :=
  if (length a =? length b)%nat
  then Ok (map (fun '(x, y) => f x y) (combine a b))
  else match a, b with
       | [x], _ => Ok (map (f x) b)
       | _, [y] => Ok (map (fun x => f x y) a)
       | _, _ => Raise ValueError
       end.

(** [arr[i] = x] for an index in range. *)
Fixpoint set_at {A : Type} (arr : list A) (i : nat) (x : A) : list A :=
  match arr, i with
  | [], _ => []
  | _ :: t, O => x :: t
  | h :: t, S i' => h :: set_at t i' x
  end.

(** [arr[indices] = x]. *)
Definition set_all {A : Type} (arr : list A) (indices : list nat) (x : A)
  : list A :=
  fold_left (fun acc i => set_at acc i x) indices arr.

End Np.

Open Scope string_scope.
Open Scope list_scope.
Open Scope method_scope.

(** ** anomaly_detection.py *)

Record Anomaly : Type := mkAnomaly {
  index : nat;
  value : Q;
  score : xnum;
  method : string;
  timestamp : option string
}.

Section AnomalyDetection.

Context {sci : SciLib} {skl : SkLearn}.

(** An [IsolationForest] estimator object: its two constructor arguments
    and, once [fit] has run, the fitted trees. *)
Record IsolationForest : Type := mkIsolationForest {
  if_contamination : Q;
  if_random_state : option Z;
  if_fitted : option forest
}.

Record AnomalyDetector : Type := mkAnomalyDetector {
  contamination : Q;
  _isolation_forest : option IsolationForest
}.

(** What a method of the detector can reach: the detector object and the
    process-wide generator of [np.random], which scikit-learn draws from
    when an estimator is built with [random_state=None]. *)
Record World : Type := mkWorld {
  detector : AnomalyDetector;
  global_rng : rng
}.

(** [AnomalyDetector.__init__] *)
Definition init (contamination : Q) : AnomalyDetector :=
  {| contamination := contamination; _isolation_forest := None |}.

(** The score of a flagged value in [detect_iqr].  The divisor is a numpy
    float64, so the quotient follows IEEE-754: a zero divisor gives an
    infinity or NaN (and a warning), not an exception. *)
Definition iqr_score (data : list Q) (iqr value : Q) : xnum :=
  xdiv (xabs (xsub (Fin value) (Np.median data))) (Fin iqr).

(** [AnomalyDetector.detect_iqr].  The one call
    [np.percentile(data, [25, 75])] computes each of the two percentiles as
    [Np.percentile] does. *)
Definition detect_iqr (data : list Q) (multiplier : Q)
  : Method World (list Anomaly) :=
  q1 <- lift (Np.percentile data 25) ;;
  q3 <- lift (Np.percentile data 75) ;;
  let iqr := q3 - q1 in
  let lower := q1 - multiplier * iqr in
  let upper := q3 + multiplier * iqr in
  ret (fold_left
         (fun anomalies '(i, value) =>
            if Qltb value lower || Qltb upper value
            then anomalies
                   ++ [mkAnomaly i value (iqr_score data iqr value) "IQR" None]
            else anomalies)
         (Np.enumerate data) []).

(** The score of a value in [detect_zscore]. *)
Definition zscore_of (mean std : xnum) (value : Q) : xnum :=
  xdiv (xabs (xsub (Fin value) mean)) std.

(** [AnomalyDetector.detect_zscore] *)
Definition detect_zscore (data : list Q) (threshold : Q)
  : Method World (list Anomaly) :=
  let mean := Np.mean data in
  let std := Np.std data in
  if xeqb std (Fin 0) then ret []
  else
    ret (fold_left
           (fun anomalies '(i, value) =>
              let zscore := zscore_of mean std value in
              if xgtb zscore (Fin threshold)
              then anomalies ++ [mkAnomaly i value zscore "Z-score" None]
              else anomalies)
           (Np.enumerate data) []).

(** An array argument of [detect_isolation_forest]: one- or
    two-dimensional. *)
Inductive ndarray : Type :=
| Arr1 (v : list Q)
| Arr2 (rows : list (list Q)).

(** [data.reshape(-1, 1)] when [data.ndim == 1]. *)
Definition as_samples (data : ndarray) : list (list Q) :=
  match data with
  | Arr1 v => map (fun x => [x]) v
  | Arr2 rows => rows
  end.

(** [data[i, 0]] *)
Definition first_column (rows : list (list Q)) (i : nat) : result Q :=
  match nth_error rows i with
  | Some (x :: _) => Ok x
  | _ => Raise IndexError
  end.

Definition set_forest (est : IsolationForest) : Method World unit :=
  w <- get ;;
  put {| detector := {| contamination := contamination (detector w);
                        _isolation_forest := Some est |};
         global_rng := global_rng w |}.

(** [IsolationForest.fit_predict] on the estimator the detector holds.  An
    integer [random_state] makes the estimator draw from a generator of its
    own, seeded with it; [None] makes it draw from the global one. *)
Definition fit_predict (X : list (list Q)) : Method World (list Z) :=
  w <- get ;;
  match _isolation_forest (detector w) with
  | None => raise AttributeError
  | Some est =>
      let gen := match if_random_state est with
                 | Some seed => rng_of_seed seed
                 | None => global_rng w
                 end in
      match fit_forest (if_contamination est) gen X with
      | Raise e => raise e
      | Ok (trees, gen') =>
          put {| detector :=
                   {| contamination := contamination (detector w);
                      _isolation_forest :=
                        Some {| if_contamination := if_contamination est;
                                if_random_state := if_random_state est;
                                if_fitted := Some trees |} |};
                 global_rng := match if_random_state est with
                               | Some _ => global_rng w
                               | None => gen'
                               end |} ;;;
          ret (predict trees X)
      end
  end.

(** [IsolationForest.score_samples] on the estimator the detector holds. *)
Definition forest_score_samples (X : list (list Q)) : Method World (list Q) :=
  w <- get ;;
  match _isolation_forest (detector w) with
  | None => raise AttributeError
  | Some est =>
      match if_fitted est with
      | None => raise NotFittedError
      | Some trees => ret (score_samples trees X)
      end
  end.

(** The loop of [detect_isolation_forest]. *)
Definition forest_loop (data : list (list Q)) (predictions : list Z)
    (scores : list Q) : result (list Anomaly) :=
  fold_left
    (fun acc '(i, (pred, score)) =>
       rbind acc (fun anomalies =>
         if (pred =? -1)%Z
         then rbind (first_column data i) (fun v =>
                Ok (anomalies
                      ++ [mkAnomaly i v (Fin (Qabs score))
                                    "IsolationForest" None]))
         else Ok anomalies))
    (Np.enumerate (combine predictions scores)) (Ok []).

(** [AnomalyDetector.detect_isolation_forest].  After the reshape the array
    is two-dimensional, so the value of a record is [data[i, 0]]. *)
Definition detect_isolation_forest (data : ndarray)
  : Method World (list Anomaly) :=
  let data := as_samples data in
  w <- get ;;
  set_forest {| if_contamination := contamination (detector w);
                if_random_state := Some 42%Z;
                if_fitted := None |} ;;;
  predictions <- fit_predict data ;;
  scores <- forest_score_samples data ;;
  lift (forest_loop data predictions scores).

(** [AnomalyDetector.detect_all]: a dict with three keys, in the order of
    the dict display. *)
Definition detect_all (data : list Q)
  : Method World (list (string * list Anomaly)) :=
  by_iqr <- detect_iqr data (3 # 2) ;;
  by_zscore <- detect_zscore data 3 ;;
  by_forest <- detect_isolation_forest (Arr1 data) ;;
  ret [("iqr", by_iqr); ("zscore", by_zscore);
       ("isolation_forest", by_forest)].

(** *** What the loops compute

    The record each loop appends for a position, the test that flags the
    position, and the detector a call of [detect_isolation_forest] leaves
    behind. *)

Definition iqr_record (data : list Q) (iqr : Q) (p : nat * Q) : Anomaly :=
  mkAnomaly (fst p) (snd p) (iqr_score data iqr (snd p)) "IQR" None.

Definition iqr_flagged (lower upper : Q) (p : nat * Q) : bool :=
  Qltb (snd p) lower || Qltb upper (snd p).

Definition zscore_record (mean std : xnum) (p : nat * Q) : Anomaly :=
  mkAnomaly (fst p) (snd p) (zscore_of mean std (snd p)) "Z-score" None.

Definition zscore_flagged (mean std : xnum) (threshold : Q) (p : nat * Q)
  : bool :=
  xgtb (zscore_of mean std (snd p)) (Fin threshold).

Definition with_forest (w : World) (fitted : option forest) : World :=
  {| detector :=
       {| contamination := contamination (detector w);
          _isolation_forest :=
            Some {| if_contamination := contamination (detector w);
                    if_random_state := Some 42%Z;
                    if_fitted := fitted |} |};
     global_rng := global_rng w |}.


End AnomalyDetection.

(** ** trend_analysis.py *)


(** The dict [seasonal_decompose] returns. *)
Record Decomposition : Type := mkDecomposition {
  trend : list Q;
  seasonal : list xnum;
  residual : list xnum
}.

Record TrendAnalyzer : Type := mkTrendAnalyzer {
  significance_level : Q
}.

Section TrendAnalysis.

Context {sci : SciLib}.

(** [stats.norm.cdf] on a value that may not be finite. *)
Definition x_norm_cdf (a : xnum) : xnum :=
  match a with
  | Fin x => Fin (norm_cdf x)
  | PInf => Fin 1
  | NInf => Fin 0
  | NaN => NaN
  end.

(** The statistic [s] the two loops of [mann_kendall_test] accumulate. *)
Definition mann_kendall_s (data : list Q) : Z :=
  let n := length data in
  fold_left
    (fun s i =>
       fold_left
         (fun s j =>
            let diff := nth j data 0 - nth i data 0 in
            if Qltb 0 diff then (s + 1)%Z
            else if Qltb diff 0 then (s - 1)%Z
            else s)
         (Np.range (i + 1) n) s)
    (Np.range 0 (n - 1)) 0%Z.

(** [z] of [mann_kendall_test], from [s] and the length. *)
Definition mann_kendall_z (s : Z) (n : nat) : xnum :=
  let n := Z.of_nat n in
  let var_s := inject_Z (n * (n - 1) * (2 * n + 5)) / 18 in
  if (0 <? s)%Z then xdiv (Fin (inject_Z (s - 1))) (Fin (np_sqrt var_s))
  else if (s <? 0)%Z then xdiv (Fin (inject_Z (s + 1))) (Fin (np_sqrt var_s))
  else Fin 0.

Definition direction_of (z : xnum) : string :=
  if xgtb z (Fin 0) then "increasing"
  else if xltb z (Fin 0) then "decreasing"
  else "no trend".

(** [TrendAnalyzer.mann_kendall_test] *)
Definition mann_kendall_test (data : list Q)
  : Method TrendAnalyzer (xnum * xnum * string) :=
  let n := length data in
  let s := mann_kendall_s data in
  let z := mann_kendall_z s n in
  let p_value := xmul (Fin 2) (xsub (Fin 1) (x_norm_cdf (xabs z))) in
  let trend := direction_of z in
  ret (z, p_value, trend).




(** One round of the loop of [seasonal_decompose]: phase [i].  When the
    subtraction before the loop succeeded, [detrended] has at least [n]
    entries and every index is in range; a phase with no index takes the
    mean of nothing (NaN) and assigns it nowhere. *)
Definition seasonal_step (detrended : list Q) (n period : nat)
    (seasonal : list xnum) (i : nat) : list xnum :=
  let indices := Np.arange i n period in
  Np.set_all seasonal indices
             (Np.mean (map (fun k => nth k detrended 0) indices)).

(** [TrendAnalyzer.seasonal_decompose] *)
Definition seasonal_decompose (data : list Q) (period : nat)
  : Method TrendAnalyzer Decomposition :=
  let n := length data in
  trend <- lift (Np.convolve_same data
                   (repeat (1 / Np.of_nat period) period)) ;;
  detrended <- lift (Np.broadcast Qminus data trend) ;;
  let seasonal :=
    fold_left (seasonal_step detrended n period) (Np.range 0 period)
              (repeat (Fin 0) n) in
  minus_trend <- lift (Np.broadcast Qminus data trend) ;;
  residual <- lift (Np.broadcast (fun d s => xsub (Fin d) s)
                                 minus_trend seasonal) ;;
  ret {| trend := trend; seasonal := seasonal; residual := residual |}.

(** *** The sequences the properties speak of *)

Definition strictly_increasing (data : list Q) : Prop :=
  forall i : nat, (S i < length data)%nat -> nth i data 0 < nth (S i) data 0.

Definition strictly_decreasing (data : list Q) : Prop :=
  forall i : nat, (S i < length data)%nat -> nth (S i) data 0 < nth i data 0.




End TrendAnalysis.

(** ** Stand-ins for the libraries, to run the code on concrete inputs *)

Module Reference.

(** A rational square root: [floor(sqrt(x) * 10^6) / 10^6]. *)
Definition approx_sqrt (x : Q) : Q :=
  if Qle_bool x 0 then 0
  else inject_Z (Z.sqrt (Qnum x * Zpos (Qden x) * 10 ^ 12))
       / inject_Z (Zpos (Qden x) * 10 ^ 6).

(** A rational sigmoid in the place of the normal distribution function. *)
Definition approx_cdf (x : Q) : Q := (1 # 2) + x / (2 * (1 + Qabs x)).

(** A one-dimensional stand-in for the forest: a centre and a cut-off
    distance, the cut-off perturbed by the generator the fit draws from. *)
Definition column (X : list (list Q)) : list Q :=
  map (fun row => nth 0 row 0) X.

Definition centre (X : list (list Q)) : Q :=
  match Np.mean (column X) with
  | Fin m => m
  | _ => 0
  end.

Definition spread (X : list (list Q)) : Q :=
  fold_left (fun acc x =>
               let d := Qabs (x - centre X) in
               if Qle_bool acc d then d else acc)
            (column X) 0.

Definition toy_fit (c : Q) (gen : Z) (X : list (list Q))
  : result ((Q * Q) * Z) :=
  match X with
  | [] => Raise ValueError
  | _ => Ok ((centre X,
              spread X * (1 - c) + inject_Z (gen mod 3) / 1000),
             ((gen * 1103515245 + 12345) mod 2147483648)%Z)
  end.

Definition toy_predict (f : Q * Q) (X : list (list Q)) : list Z :=
  map (fun x => if Qltb (snd f) (Qabs (x - fst f)) then (-1)%Z else 1%Z)
      (column X).

Definition toy_score_samples (f : Q * Q) (X : list (list Q)) : list Q :=
  map (fun x => - (1 # 2) - Qabs (x - fst f)) (column X).

(** A detector built with [contamination = 0.1] in a process whose global
    generator is in some state, and an analyzer at the default
    significance level. *)
Definition analyzer : TrendAnalyzer := {| significance_level := 5 # 100 |}.

End Reference.

(** The stand-ins meet the interfaces. *)
Definition reference_scilib : SciLib.
Proof.
  refine {| np_sqrt := Reference.approx_sqrt;
            norm_cdf := Reference.approx_cdf |}.
  - intros x _. unfold Reference.approx_sqrt.
    destruct (Qle_bool x 0); [apply Qle_refl |].
    apply Qle_shift_div_l.
    + change 0 with (inject_Z 0). rewrite <- Zlt_Qlt. lia.
    + rewrite Qmult_0_l. change 0 with (inject_Z 0). rewrite <- Zle_Qle.
      apply Z.sqrt_nonneg.
  - intros x Hx. unfold Reference.approx_sqrt.
    destruct (Qle_bool x 0) eqn:E.
    + apply Qle_bool_iff in E. exfalso. apply (Qlt_not_le _ _ Hx E).
    + apply Qlt_shift_div_l.
      * change 0 with (inject_Z 0). rewrite <- Zlt_Qlt. lia.
      * rewrite Qmult_0_l. change 0 with (inject_Z 0). rewrite <- Zlt_Qlt.
        apply Z.sqrt_pos. unfold Qlt in Hx. simpl in Hx. lia.
Defined.

Definition reference_sklearn : SkLearn :=
  {| rng := Z;
     forest := Q * Q;
     rng_of_seed := fun seed => seed;
     fit_forest := Reference.toy_fit;
     predict := Reference.toy_predict;
     score_samples := Reference.toy_score_samples |}.

(** A detector built with [contamination = 0.1], in a process whose global
    generator is in some state. *)
Definition fresh_world : @World reference_sklearn :=
  @mkWorld reference_sklearn (@init reference_sklearn (1 # 10)) 7%Z.

(** A detector that has been used before, in a process whose global
    generator has moved on. *)
Definition used_world : @World reference_sklearn :=
  @mkWorld reference_sklearn
    (@mkAnomalyDetector reference_sklearn (1 # 10)
       (Some (@mkIsolationForest reference_sklearn (1 # 2) None
                                 (Some (0, 1)))))
    99%Z.

(** ** Further vocabulary for the properties of the two modules *)

(** The sequence after a change of units: [k * x + c] at every element. *)
Definition affine (k c : Q) (data : list Q) : list Q :=
  map (fun x => k * x + c) data.

Definition non_decreasing (data : list Q) : Prop :=
  forall i : nat, (S i < length data)%nat -> nth i data 0 <= nth (S i) data 0.

Definition non_increasing (data : list Q) : Prop :=
  forall i : nat, (S i < length data)%nat -> nth (S i) data 0 <= nth i data 0.

(** The pairs [i < j] the two loops of the trend operations visit, in the
    order they visit them. *)
Definition pairs (n : nat) : list (nat * nat) :=
  flat_map (fun i => map (pair i) (Np.range (i + 1) n)) (Np.range 0 (n - 1)).

(** What the pair [(i, j)] adds to the statistic of [mann_kendall_test]. *)
Definition pair_sign (data : list Q) (p : nat * nat) : Z :=
  let diff := nth (snd p) data 0 - nth (fst p) data 0 in
  if Qltb 0 diff then 1%Z else if Qltb diff 0 then (-1)%Z else 0%Z.

Definition Zsum (l : list Z) : Z := fold_right Z.add 0%Z l.



(** The record [a'] found after the change of units [k * x + c] is the
    record [a] found before it. *)
Definition same_finding (k c : Q) (a' a : Anomaly) : Prop :=
  index a' = index a /\
  value a' == k * value a + c /\
  xeq (score a') (score a) /\
  method a' = method a.

(** The mean [seasonal_decompose] assigns to the indices of phase [p]. *)
Definition phase_mean (detrended : list Q) (n period p : nat) : xnum :=
  Np.mean (map (fun k => nth k detrended 0) (Np.arange p n period)).

(** The direction [mann_kendall_test] reports, read off its statistic. *)
Definition direction_by_s (s : Z) : string :=
  if (1 <? s)%Z then "increasing"
  else if (s <? -1)%Z then "decreasing"
  else "no trend".


(** ** Facts about the numpy model *)

Lemma Qltb_lt (x y : Q) : Qltb x y = true <-> x < y.
Proof.
  unfold Qltb. rewrite negb_true_iff.
  destruct (Qle_bool y x) eqn:E.
  - apply Qle_bool_iff in E. split; [discriminate | lra].
  - split; [intros _ | reflexivity].
    destruct (Qlt_le_dec x y) as [H | H]; [exact H |].
    apply Qle_bool_iff in H. congruence.
Qed.

Lemma Qltb_ge (x y : Q) : Qltb x y = false <-> y <= x.
Proof.
  unfold Qltb. rewrite negb_false_iff. apply Qle_bool_iff.
Qed.

Lemma Qeq_bool_false (x y : Q) : Qeq_bool x y = false <-> ~ x == y.
Proof.
  split.
  - intros E H. apply Qeq_eq_bool in H. congruence.
  - intros H. destruct (Qeq_bool x y) eqn:E; [| reflexivity].
    apply Qeq_bool_eq in E. contradiction.
Qed.

Lemma nil_or_not {A : Type} (l : list A) : l = [] \/ l <> [].
Proof. destruct l; [left; reflexivity | right; discriminate]. Qed.

Lemma fold_left_collect {A B : Type} (keep : A -> bool) (f : A -> B)
    (l : list A) (acc : list B) :
  fold_left (fun acc x => if keep x then acc ++ [f x] else acc) l acc
  = acc ++ map f (filter keep l).
Proof.
  revert acc. induction l as [| x l IH]; intros acc; simpl.
  - now rewrite app_nil_r.
  - rewrite IH. destruct (keep x); simpl; [| reflexivity].
    now rewrite <- app_assoc.
Qed.

Lemma enumerate_nth_error {A : Type} (l : list A) (i : nat) (x : A) :
  In (i, x) (Np.enumerate l) <-> nth_error l i = Some x.
Proof.
  unfold Np.enumerate.
  assert (G : forall (l : list A) k i x,
             In (i, x) (combine (seq k (length l)) l)
             <-> (k <= i)%nat /\ nth_error l (i - k) = Some x).
  { clear. induction l as [| y l IH]; intros k i x; simpl.
    - split; [tauto |]. intros [_ H]. destruct (i - k)%nat; discriminate.
    - rewrite IH. split.
      + intros [E | [Hk Hn]].
        * inversion E; subst. split; [lia |]. now rewrite Nat.sub_diag.
        * split; [lia |]. replace (i - k)%nat with (S (i - S k)) by lia.
          exact Hn.
      + intros [Hk Hn]. destruct (Nat.eq_dec i k) as [-> | Hne].
        * rewrite Nat.sub_diag in Hn. simpl in Hn. left. congruence.
        * right. split; [lia |].
          replace (i - k)%nat with (S (i - S k)) in Hn by lia. exact Hn. }
  rewrite G, Nat.sub_0_r. split; [tauto | intros H; split; [lia | exact H]].
Qed.

Module NpFacts.

Import Np.

Lemma insert_perm (x : Q) (l : list Q) : Permutation (x :: l) (insert x l).
Proof.
  induction l as [| y l IH]; simpl; [reflexivity |].
  destruct (Qle_bool x y); [reflexivity |].
  rewrite perm_swap. now apply perm_skip.
Qed.

Lemma sort_perm (l : list Q) : Permutation l (sort l).
Proof.
  induction l as [| x l IH]; simpl; [reflexivity |].
  rewrite <- insert_perm. now apply perm_skip.
Qed.

Lemma length_sort (l : list Q) : length (sort l) = length l.
Proof. symmetry. apply Permutation_length, sort_perm. Qed.

Lemma insert_sorted (x : Q) (l : list Q) :
  StronglySorted Qle l -> StronglySorted Qle (insert x l).
Proof.
  induction 1 as [| y l Hl IH Hy]; simpl.
  - constructor; constructor.
  - destruct (Qle_bool x y) eqn:E.
    + apply Qle_bool_iff in E. constructor.
      * now constructor.
      * constructor; [exact E |].
        eapply Forall_impl; [| exact Hy]. intros z Hz. simpl in Hz. lra.
    + assert (Hyx : y <= x).
      { destruct (Qlt_le_dec x y) as [H | H]; [| exact H].
        assert (Hle : x <= y) by lra.
        apply Qle_bool_iff in Hle. congruence. }
      constructor; [exact IH |].
      eapply Permutation_Forall; [apply insert_perm |].
      constructor; assumption.
Qed.

Lemma sort_sorted (l : list Q) : StronglySorted Qle (sort l).
Proof.
  induction l as [| x l IH]; simpl; [constructor | now apply insert_sorted].
Qed.

Lemma sorted_nth (s : list Q) :
  StronglySorted Qle s ->
  forall i j : nat, (i <= j < length s)%nat -> nth i s 0 <= nth j s 0.
Proof.
  induction 1 as [| x s Hs IH Hx]; intros i j Hij; simpl in Hij; [lia |].
  destruct i as [| i], j as [| j]; simpl; try lia.
  - lra.
  - rewrite Forall_forall in Hx. apply Hx, nth_In. lia.
  - apply IH. lia.
Qed.

End NpFacts.
Module NpInterp.

Import Np NpFacts.

Lemma Qfloor_unique (x : Q) (z : Z) :
  inject_Z z <= x -> x < inject_Z (z + 1) -> Qfloor x = z.
Proof.
  intros Hlo Hhi.
  pose proof (Qfloor_le x) as H1. pose proof (Qlt_floor x) as H2.
  assert (A : inject_Z (Qfloor x) < inject_Z (z + 1)) by lra.
  assert (B : inject_Z z < inject_Z (Qfloor x + 1)) by lra.
  rewrite <- Zlt_Qlt in A, B. lia.
Qed.

Lemma Qfloor_nonneg (x : Q) : 0 <= x -> (0 <= Qfloor x)%Z.
Proof.
  intros Hx. pose proof (Qlt_floor x) as H.
  assert (A : 0 < inject_Z (Qfloor x + 1)) by lra.
  change 0 with (inject_Z 0) in A.
  rewrite <- Zlt_Qlt in A. lia.
Qed.

Lemma inject_to_nat (x : Q) :
  0 <= x -> of_nat (Z.to_nat (Qfloor x)) = inject_Z (Qfloor x).
Proof.
  intros Hx. unfold of_nat. rewrite Z2Nat.id; [reflexivity |].
  now apply Qfloor_nonneg.
Qed.

Lemma of_nat_le (a b : nat) : (a <= b)%nat <-> of_nat a <= of_nat b.
Proof. unfold of_nat. rewrite <- Zle_Qle. lia. Qed.


(** The position [h] sits between its two neighbours. *)
Lemma interpolate_between (s : list Q) (h : Q) :
  StronglySorted Qle s -> 0 <= h -> h <= of_nat (length s - 1) ->
  (0 < length s)%nat ->
  let previous := Z.to_nat (Qfloor h) in
  let next := Nat.min (previous + 1) (length s - 1) in
  (previous <= next < length s)%nat /\
  nth previous s 0 <= interpolate s h <= nth next s 0.
Proof.
  intros Hs H0 Hn Hlen previous next.
  assert (Hprev : of_nat previous <= h).
  { unfold previous. rewrite inject_to_nat by exact H0. apply Qfloor_le. }
  assert (Hp : (previous <= length s - 1)%nat).
  { apply of_nat_le. lra. }
  assert (Hrange : (previous <= next < length s)%nat) by (unfold next; lia).
  split; [exact Hrange |].
  pose proof (sorted_nth s Hs previous next Hrange) as Hord.
  unfold interpolate. fold previous. fold next.
  pose proof (Qfloor_le h) as G1. pose proof (Qlt_floor h) as G2.
  rewrite inject_Z_plus in G2. change (inject_Z 1) with 1 in G2.
  set (gamma := h - inject_Z (Qfloor h)).
  assert (Hg : 0 <= gamma /\ gamma < 1) by (unfold gamma; split; lra).
  set (a := nth previous s 0) in *. set (b := nth next s 0) in *.
  split; nra.
Qed.

Lemma interpolate_mono (s : list Q) (h h' : Q) :
  StronglySorted Qle s -> (0 < length s)%nat ->
  0 <= h -> h <= h' -> h' <= of_nat (length s - 1) ->
  interpolate s h <= interpolate s h'.
Proof.
  intros Hs Hlen H0 Hhh Hn.
  destruct (interpolate_between s h Hs H0 ltac:(lra) Hlen) as [R1 [L1 U1]].
  destruct (interpolate_between s h' Hs ltac:(lra) Hn Hlen) as [R2 [L2 U2]].
  pose proof (Qfloor_resp_le h h' Hhh) as Hfl.
  pose proof (Qfloor_nonneg h H0) as Hf0.
  destruct (Z.eq_dec (Qfloor h) (Qfloor h')) as [E | NE].
  - unfold interpolate in *. rewrite <- E in *.
    set (previous := Z.to_nat (Qfloor h)) in *.
    set (next := Nat.min (previous + 1) (length s - 1)) in *.
    pose proof (sorted_nth s Hs previous next R1) as Hord.
    set (a := nth previous s 0) in *. set (b := nth next s 0) in *.
    nra.
  - assert (Hlt : (Z.to_nat (Qfloor h) < Z.to_nat (Qfloor h'))%nat) by lia.
    apply Qle_trans with (nth (Nat.min (Z.to_nat (Qfloor h) + 1)
                                       (length s - 1)) s 0); [exact U1 |].
    apply Qle_trans with (nth (Z.to_nat (Qfloor h')) s 0); [| exact L2].
    apply sorted_nth; [exact Hs | lia].
Qed.

Lemma of_nat_nonneg (a : nat) : 0 <= of_nat a.
Proof. change 0 with (of_nat 0). apply of_nat_le. lia. Qed.

(** [np.median] is the interpolation at the middle position. *)
Lemma median_interpolate (l : list Q) :
  l <> [] ->
  exists m : Q,
    median l = Fin m /\
    m == interpolate (sort l) (of_nat (length l - 1) * (1 # 2)).
Proof.
  intros Hl. unfold median. destruct l as [| x l]; [congruence |].
  set (d := x :: l). set (n := length d).
  assert (Hn : (0 < n)%nat) by (unfold n, d; simpl; lia).
  destruct (Nat.even n) eqn:Ev.
  - eexists. split; [reflexivity |].
    apply Nat.even_spec in Ev. destruct Ev as [m Hm].
    assert (Hm1 : (1 <= m)%nat) by lia.
    assert (Hh : of_nat (n - 1) * (1 # 2) == of_nat (m - 1) + (1 # 2)).
    { unfold of_nat. replace (Z.of_nat (n - 1)) with (2 * Z.of_nat (m - 1) + 1)%Z by lia.
      rewrite inject_Z_plus, inject_Z_mult.
      change (inject_Z 2) with 2. change (inject_Z 1) with 1. lra. }
    assert (Hf : Qfloor (of_nat (n - 1) * (1 # 2)) = Z.of_nat (m - 1)).
    { apply Qfloor_unique; rewrite Hh; unfold of_nat.
      - lra.
      - rewrite inject_Z_plus. change (inject_Z 1) with 1. lra. }
    unfold interpolate. rewrite Hf, Nat2Z.id, length_sort. fold n.
    replace (Nat.min (m - 1 + 1) (n - 1)) with m by lia.
    replace (n / 2)%nat with m by (rewrite Hm, Nat.mul_comm, Nat.div_mul; lia).
    rewrite Hh. fold (of_nat (m - 1)). field.
  - eexists. split; [reflexivity |].
    assert (Od : Nat.odd n = true) by (rewrite <- Nat.negb_even, Ev; reflexivity).
    apply Nat.odd_spec in Od. destruct Od as [m Hm].
    assert (Hh : of_nat (n - 1) * (1 # 2) == of_nat m).
    { unfold of_nat. replace (Z.of_nat (n - 1)) with (2 * Z.of_nat m)%Z by lia.
      rewrite inject_Z_mult. change (inject_Z 2) with 2. lra. }
    assert (Hf : Qfloor (of_nat (n - 1) * (1 # 2)) = Z.of_nat m).
    { apply Qfloor_unique; rewrite Hh; unfold of_nat.
      - lra.
      - rewrite inject_Z_plus. change (inject_Z 1) with 1. lra. }
    unfold interpolate. rewrite Hf, Nat2Z.id.
    replace (n / 2)%nat with m.
    2:{ rewrite Hm. apply Nat.div_unique with (r := 1%nat); lia. }
    rewrite Hh. fold (of_nat m). ring.
Qed.

(** The quartiles bracket the median. *)
Lemma quartiles_bracket_median (l : list Q) :
  l <> [] ->
  exists q1 q3 m : Q,
    percentile l 25 = Ok q1 /\ percentile l 75 = Ok q3 /\
    median l = Fin m /\ q1 <= m /\ m <= q3.
Proof.
  intros Hl. destruct (median_interpolate l Hl) as [m [Hm Em]].
  unfold percentile. simpl negb.
  destruct l as [| x l]; [congruence |].
  do 3 eexists. split; [reflexivity |]. split; [reflexivity |].
  split; [exact Hm |].
  set (d := x :: l) in *.
  pose proof (sort_sorted d) as Hs.
  assert (Hlen : (0 < length (sort d))%nat)
    by (rewrite length_sort; unfold d; simpl; lia).
  pose proof (of_nat_nonneg (length d - 1)) as Hx.
  assert (E1 : 25 / 100 == 1 # 4) by reflexivity.
  assert (E3 : 75 / 100 == 3 # 4) by reflexivity.
  rewrite Em. split; apply interpolate_mono; try assumption;
    rewrite ?length_sort, ?E1, ?E3; lra.
Qed.

(** Interpolating in an array of equal values gives that value. *)
Lemma interpolate_of_equal (s : list Q) (h c : Q) :
  StronglySorted Qle s -> (0 < length s)%nat ->
  0 <= h -> h <= of_nat (length s - 1) ->
  Forall (fun x => x == c) s -> interpolate s h == c.
Proof.
  intros Hs Hlen H0 Hn Hall.
  destruct (interpolate_between s h Hs H0 Hn Hlen) as [R [L U]].
  rewrite Forall_forall in Hall.
  assert (Ea : nth (Z.to_nat (Qfloor h)) s 0 == c)
    by (apply Hall, nth_In; lia).
  assert (Eb : nth (Nat.min (Z.to_nat (Qfloor h) + 1) (length s - 1)) s 0 == c)
    by (apply Hall, nth_In; lia).
  rewrite Ea in L. rewrite Eb in U. lra.
Qed.

(** Both quartiles of a constant array are its value. *)
Lemma quartiles_of_equal (l : list Q) (c : Q) :
  l <> [] -> Forall (fun x => x == c) l ->
  exists q1 q3 : Q,
    percentile l 25 = Ok q1 /\ percentile l 75 = Ok q3 /\
    q1 == c /\ q3 == c.
Proof.
  intros Hl Hall. unfold percentile. simpl negb.
  destruct l as [| x l]; [congruence |].
  do 2 eexists. split; [reflexivity |]. split; [reflexivity |].
  set (d := x :: l) in *.
  pose proof (sort_sorted d) as Hs.
  assert (Hlen : (0 < length (sort d))%nat)
    by (rewrite length_sort; unfold d; simpl; lia).
  assert (Hsall : Forall (fun x => x == c) (sort d))
    by (eapply Permutation_Forall; [apply sort_perm | exact Hall]).
  pose proof (of_nat_nonneg (length d - 1)) as Hx.
  assert (E1 : 25 / 100 == 1 # 4) by reflexivity.
  assert (E3 : 75 / 100 == 3 # 4) by reflexivity.
  split; apply interpolate_of_equal; try assumption;
    rewrite ?length_sort, ?E1, ?E3; lra.
Qed.

End NpInterp.

(** ** Facts about the detectors *)

Lemma loop_collect {A B : Type} (keep : A -> bool) (f : A -> B)
    (body : list B -> A -> list B) (l : list A) (acc : list B) :
  (forall acc x, body acc x = if keep x then acc ++ [f x] else acc) ->
  fold_left body l acc = acc ++ map f (filter keep l).
Proof.
  intros Hbody. rewrite <- fold_left_collect.
  revert acc. induction l as [| x l IH]; intros acc; simpl; [reflexivity |].
  now rewrite Hbody, IH.
Qed.

Section DetectorFacts.

Context {sci : SciLib} {skl : SkLearn}.

Lemma detect_iqr_run (data : list Q) (multiplier q1 q3 : Q) (w : World) :
  Np.percentile data 25 = Ok q1 -> Np.percentile data 75 = Ok q3 ->
  detect_iqr data multiplier w
  = (Ok (map (iqr_record data (q3 - q1))
             (filter (iqr_flagged (q1 - multiplier * (q3 - q1))
                                  (q3 + multiplier * (q3 - q1)))
                     (Np.enumerate data))), w).
Proof.
  intros H1 H3. unfold detect_iqr, bind, lift, ret. rewrite H1, H3.
  f_equal. f_equal.
  rewrite loop_collect with (keep := iqr_flagged (q1 - multiplier * (q3 - q1))
                                       (q3 + multiplier * (q3 - q1)))
                            (f := iqr_record data (q3 - q1)).
  - reflexivity.
  - intros acc [i v]. reflexivity.
Qed.

Lemma percentile_nonempty (data : list Q) (p q : Q) :
  Np.percentile data p = Ok q -> data <> [].
Proof.
  unfold Np.percentile. intros H ->.
  destruct (negb _) in H; discriminate.
Qed.

(** With a zero divisor a positive distance scores [+inf]. *)
Lemma iqr_score_zero (data : list Q) (iqr v m : Q) :
  Np.median data = Fin m -> iqr == 0 -> ~ v == m ->
  iqr_score data iqr v = PInf.
Proof.
  intros Hm Hi Hv. unfold iqr_score. rewrite Hm.
  cbn [xsub xadd xopp xabs xdiv].
  rewrite (Qeq_eq_bool _ _ Hi). unfold xscale_inf.
  assert (Hpos : 0 < Qabs (v + - m)).
  { apply Qabs_case; intros; destruct (Qeq_dec v m); try contradiction; lra. }
  destruct (Qeq_bool (Qabs (v + - m)) 0) eqn:E.
  - apply Qeq_bool_eq in E. lra.
  - apply Qltb_lt in Hpos. rewrite Hpos. reflexivity.
Qed.

Lemma detect_zscore_run (data : list Q) (threshold : Q) (w : World) :
  detect_zscore data threshold w
  = (Ok (if xeqb (Np.std data) (Fin 0) then []
         else map (zscore_record (Np.mean data) (Np.std data))
                  (filter (zscore_flagged (Np.mean data) (Np.std data)
                                          threshold)
                          (Np.enumerate data))), w).
Proof.
  unfold detect_zscore. destruct (xeqb (Np.std data) (Fin 0)); [reflexivity |].
  unfold ret. f_equal. f_equal.
  rewrite loop_collect
    with (keep := zscore_flagged (Np.mean data) (Np.std data) threshold)
         (f := zscore_record (Np.mean data) (Np.std data)).
  - reflexivity.
  - intros acc [i v]. reflexivity.
Qed.






Lemma detect_isolation_forest_run (data : ndarray) (w : World) :
  detect_isolation_forest data w
  = match fit_forest (contamination (detector w)) (rng_of_seed 42)
                     (as_samples data) with
    | Raise e => (Raise e, with_forest w None)
    | Ok (trees, _) =>
        (forest_loop (as_samples data) (predict trees (as_samples data))
                     (score_samples trees (as_samples data)),
         with_forest w (Some trees))
    end.
Proof.
  unfold detect_isolation_forest, set_forest, fit_predict,
    forest_score_samples, bind, get, put, raise, ret, lift. cbn.
  destruct (fit_forest _ _ _) as [[trees gen'] | e]; reflexivity.
Qed.



Lemma first_column_samples (data : list Q) (i : nat) (v : Q) :
  first_column (as_samples (Arr1 data)) i = Ok v -> nth_error data i = Some v.
Proof.
  unfold first_column, as_samples. rewrite nth_error_map.
  destruct (nth_error data i) as [x |]; simpl; [| discriminate].
  intros E. now injection E as <-.
Qed.


(** A constant sequence has a zero interquartile range, and [detect_iqr]
    flags nothing in it. *)
Lemma detect_iqr_constant (data : list Q) (multiplier c : Q) (w : World) :
  data <> [] -> Forall (fun x => x == c) data ->
  exists q1 q3 : Q,
    Np.percentile data 25 = Ok q1 /\ Np.percentile data 75 = Ok q3 /\
    q3 - q1 == 0 /\
    detect_iqr data multiplier w = (Ok [], w).
Proof.
  intros Hne Hall.
  destruct (NpInterp.quartiles_of_equal data c Hne Hall)
    as (q1 & q3 & H1 & H3 & E1 & E3).
  exists q1, q3. split; [exact H1 |]. split; [exact H3 |].
  split; [lra |].
  rewrite (detect_iqr_run _ multiplier q1 q3 w H1 H3).
  do 2 f_equal.
  destruct (filter _ (Np.enumerate data)) as [| [i v] rest] eqn:Ef;
    [reflexivity | exfalso].
  assert (Hin : In (i, v) (filter
            (iqr_flagged (q1 - multiplier * (q3 - q1))
                         (q3 + multiplier * (q3 - q1))) (Np.enumerate data)))
    by (rewrite Ef; now left).
  apply filter_In in Hin. destruct Hin as [Hin Hf].
  apply enumerate_nth_error, nth_error_In in Hin.
  rewrite Forall_forall in Hall. specialize (Hall v Hin).
  unfold iqr_flagged in Hf. rewrite orb_true_iff, !Qltb_lt in Hf.
  assert (Hz : multiplier * (q3 - q1) == 0) by (rewrite E1, E3; ring).
  simpl in Hf. destruct Hf; lra.
Qed.

Lemma quartiles_defined (data : list Q) :
  data <> [] ->
  exists q1 q3, Np.percentile data 25 = Ok q1 /\ Np.percentile data 75 = Ok q3.
Proof.
  intros Hne.
  destruct (NpInterp.quartiles_bracket_median data Hne)
    as (q1 & q3 & m & E1 & E3 & _).
  now exists q1, q3.
Qed.

Lemma detect_iqr_empty (multiplier : Q) (w : World) :
  detect_iqr [] multiplier w = (Raise IndexError, w).
Proof. reflexivity. Qed.




(** The outcome of [detect_isolation_forest] is a function of the array and
    of the configured contamination. *)
Lemma detect_isolation_forest_outcome (data : ndarray) (w1 w2 : World) :
  contamination (detector w1) = contamination (detector w2) ->
  fst (detect_isolation_forest data w1) = fst (detect_isolation_forest data w2).
Proof.
  intros Hc. rewrite !detect_isolation_forest_run, Hc.
  destruct (fit_forest _ _ _) as [[trees gen'] | e]; reflexivity.
Qed.

Lemma detect_isolation_forest_state (data : ndarray) (w : World) :
  exists fitted : option forest,
    snd (detect_isolation_forest data w) = with_forest w fitted.
Proof.
  rewrite detect_isolation_forest_run.
  destruct (fit_forest _ _ _) as [[trees gen'] | e]; eexists; reflexivity.
Qed.

(** [detect_all] is [detect_isolation_forest] behind two calls that leave
    the detector alone. *)
Lemma detect_all_run (data : list Q) (w : World) :
  detect_all data w
  = match detect_iqr data (3 # 2) w, detect_zscore data 3 w with
    | (Ok by_iqr, _), (Ok by_zscore, _) =>
        match detect_isolation_forest (Arr1 data) w with
        | (Ok by_forest, w') =>
            (Ok [("iqr", by_iqr); ("zscore", by_zscore);
                 ("isolation_forest", by_forest)], w')
        | (Raise e, w') => (Raise e, w')
        end
    | (Raise e, _), _ => (Raise e, w)
    | _, (Raise e, _) => (Raise e, w)
    end.
Proof.
  unfold detect_all. unfold bind at 1.
  destruct (nil_or_not data) as [-> | Hne].
  - rewrite detect_iqr_empty. reflexivity.
  - destruct (quartiles_defined data Hne) as (q1 & q3 & H1 & H3).
    rewrite (detect_iqr_run _ (3 # 2) q1 q3 w H1 H3).
    unfold bind at 1. rewrite detect_zscore_run.
    unfold bind, ret.
    destruct (detect_isolation_forest (Arr1 data) w) as [[res | e] w'];
      reflexivity.
Qed.

End DetectorFacts.





(** ** Facts about the trend operations *)




Lemma in_range (a b j : nat) : In j (Np.range a b) <-> (a <= j < b)%nat.
Proof. unfold Np.range. rewrite in_seq. lia. Qed.

Section TrendFacts.

Context {sci : SciLib}.




Lemma fold_add_const {A : Type} (f : Z -> A -> Z) (c : Z) (l : list A) :
  (forall s x, In x l -> f s x = (s + c)%Z) ->
  forall s, fold_left f l s = (s + c * Z.of_nat (length l))%Z.
Proof.
  induction l as [| x l IH]; intros H s.
  - simpl. lia.
  - cbn [fold_left length]. rewrite H by now left.
    rewrite IH by (intros s' y Hy; apply H; now right). lia.
Qed.

Lemma fold_triangle (f : Z -> nat -> Z) (c : Z) (n k : nat) :
  (k <= n)%nat ->
  (forall s i, (i < k)%nat -> f s i = (s + c * Z.of_nat (n - (i + 1)))%Z) ->
  forall s,
    (2 * fold_left f (seq 0 k) s
     = 2 * s + c * (Z.of_nat k * (2 * Z.of_nat n - Z.of_nat k - 1)))%Z.
Proof.
  induction k as [| k IH]; intros Hk H s.
  - simpl. lia.
  - rewrite seq_S, fold_left_app. cbn [fold_left Nat.add].
    rewrite H by lia.
    specialize (IH ltac:(lia) ltac:(intros; apply H; lia) s).
    replace (Z.of_nat (n - (k + 1))) with (Z.of_nat n - Z.of_nat k - 1)%Z by lia.
    replace (Z.of_nat (S k)) with (Z.of_nat k + 1)%Z by lia.
    nia.
Qed.

(** When every pair [i < j] moves the statistic by the same [c], the two
    loops of the Mann-Kendall test count the pairs. *)
Lemma mann_kendall_s_uniform (data : list Q) (c : Z) :
  (forall (s : Z) (i j : nat),
      (i < j < length data)%nat ->
      (let diff := nth j data 0 - nth i data 0 in
       if Qltb 0 diff then (s + 1)%Z
       else if Qltb diff 0 then (s - 1)%Z else s) = (s + c)%Z) ->
  (2 * mann_kendall_s data
   = c * (Z.of_nat (length data) * (Z.of_nat (length data) - 1)))%Z.
Proof.
  intros H. unfold mann_kendall_s. set (n := length data) in *.
  unfold Np.range at 2. rewrite Nat.sub_0_r.
  rewrite fold_triangle with (c := c) (n := n).
  - destruct (Nat.eq_dec n 0) as [-> | Hn]; [simpl; lia |].
    replace (Z.of_nat (n - 1)) with (Z.of_nat n - 1)%Z by lia. ring.
  - lia.
  - intros s i Hi. rewrite fold_add_const with (c := c).
    + unfold Np.range. rewrite length_seq. reflexivity.
    + intros s' j Hj. apply in_range in Hj. apply H. lia.
Qed.

Lemma increasing_pairs (data : list Q) :
  strictly_increasing data ->
  forall i j, (i < j < length data)%nat -> nth i data 0 < nth j data 0.
Proof.
  intros H i j [Hij Hj]. induction j as [| j IH]; [lia |].
  destruct (Nat.eq_dec i j) as [-> | Hne]; [now apply H |].
  apply Qlt_trans with (nth j data 0); [apply IH; lia | now apply H].
Qed.

Lemma decreasing_pairs (data : list Q) :
  strictly_decreasing data ->
  forall i j, (i < j < length data)%nat -> nth j data 0 < nth i data 0.
Proof.
  intros H i j [Hij Hj]. induction j as [| j IH]; [lia |].
  destruct (Nat.eq_dec i j) as [-> | Hne]; [now apply H |].
  apply Qlt_trans with (nth j data 0); [now apply H | apply IH; lia].
Qed.

(** With at least two points the variance term is positive, so [z] has
    the sign of the corrected statistic. *)
Lemma mann_kendall_z_finite (s : Z) (n : nat) :
  (2 <= n)%nat -> s <> 0%Z ->
  exists r : Q,
    0 < r /\
    mann_kendall_z s n
    = Fin (inject_Z (if (0 <? s)%Z then s - 1 else s + 1)%Z / r).
Proof.
  intros Hn Hs. unfold mann_kendall_z.
  set (v := inject_Z _ / 18).
  assert (Hv : 0 < v).
  { unfold v. apply Qlt_shift_div_l; [reflexivity |]. rewrite Qmult_0_l.
    change 0 with (inject_Z 0). rewrite <- Zlt_Qlt. nia. }
  pose proof (np_sqrt_pos v Hv) as Hr. exists (np_sqrt v).
  split; [exact Hr |].
  assert (E : Qeq_bool (np_sqrt v) 0 = false) by (apply Qeq_bool_false; lra).
  destruct (0 <? s)%Z eqn:Hpos; cbn [xdiv]; rewrite ?E; [reflexivity |].
  destruct (s <? 0)%Z eqn:Hneg; cbn [xdiv]; rewrite ?E; [reflexivity |].
  lia.
Qed.

Lemma quotient_sign (a r : Q) :
  0 < r -> (0 < a -> 0 < a / r) /\ (a < 0 -> a / r < 0) /\ (a == 0 -> a / r == 0).
Proof.
  intros Hr. repeat split; intros Ha.
  - apply Qlt_shift_div_l; [exact Hr | lra].
  - apply Qlt_shift_div_r; [exact Hr | lra].
  - rewrite Ha. unfold Qdiv. ring.
Qed.

Lemma direction_of_sign (q : Q) :
  direction_of (Fin q)
  = if Qltb 0 q then "increasing"
    else if Qltb q 0 then "decreasing" else "no trend".
Proof. reflexivity. Qed.

Lemma mann_kendall_direction (s : Z) (n : nat) :
  (2 <= n)%nat ->
  direction_of (mann_kendall_z s n)
  = if (1 <? s)%Z then "increasing"
    else if (s <? -1)%Z then "decreasing" else "no trend".
Proof.
  intros Hn. destruct (Z.eq_dec s 0) as [-> | Hs]; [reflexivity |].
  destruct (mann_kendall_z_finite s n Hn Hs) as (r & Hr & ->).
  rewrite direction_of_sign.
  set (a := inject_Z _).
  destruct (quotient_sign a r Hr) as (Hp & Hm & Hz).
  assert (Ha : ((1 < s)%Z -> 0 < a) /\ ((s < -1)%Z -> a < 0)
               /\ (s = 1%Z \/ s = (-1)%Z -> a == 0)).
  { unfold a. repeat split; intros H.
    - destruct (0 <? s)%Z eqn:E; [| lia].
      change 0 with (inject_Z 0). rewrite <- Zlt_Qlt. lia.
    - destruct (0 <? s)%Z eqn:E; [lia |].
      change 0 with (inject_Z 0). rewrite <- Zlt_Qlt. lia.
    - destruct H as [-> | ->]; reflexivity. }
  destruct Ha as (Ha1 & Ha2 & Ha3).
  destruct (1 <? s)%Z eqn:E1.
  - apply Z.ltb_lt in E1. specialize (Hp (Ha1 E1)).
    apply Qltb_lt in Hp. now rewrite Hp.
  - apply Z.ltb_ge in E1. destruct (s <? -1)%Z eqn:E2.
    + apply Z.ltb_lt in E2. specialize (Hm (Ha2 E2)).
      assert (G : Qltb 0 (a / r) = false) by (apply Qltb_ge; lra).
      apply Qltb_lt in Hm. now rewrite G, Hm.
    + apply Z.ltb_ge in E2. assert (Hs1 : s = 1%Z \/ s = (-1)%Z) by lia.
      specialize (Hz (Ha3 Hs1)).
      assert (G1 : Qltb 0 (a / r) = false) by (apply Qltb_ge; lra).
      assert (G2 : Qltb (a / r) 0 = false) by (apply Qltb_ge; lra).
      now rewrite G1, G2.
Qed.

(** *** The median of equal values, and of value-wise equal arrays *)





Lemma median_of_equal (l : list Q) (b : Q) :
  l <> [] -> Forall (fun x => x == b) l ->
  exists m : Q, Np.median l = Fin m /\ m == b.
Proof.
  intros Hne Hall.
  assert (Hs : forall i, (i < length l)%nat -> nth i (Np.sort l) 0 == b).
  { intros i Hi.
    assert (Hp : Forall (fun x => x == b) (Np.sort l))
      by (eapply Permutation_Forall; [apply NpFacts.sort_perm | exact Hall]).
    rewrite Forall_forall in Hp. apply Hp, nth_In.
    now rewrite NpFacts.length_sort. }
  unfold Np.median. destruct l as [| x l]; [congruence |].
  set (d := x :: l) in *. set (n := length d) in *.
  assert (Hn : (0 < n)%nat) by (unfold n, d; simpl; lia).
  assert (Hhalf : (n / 2 < n)%nat) by (apply Nat.div_lt; lia).
  destruct (Nat.even n); eexists; (split; [reflexivity |]).
  - rewrite !Hs by lia. field.
  - now apply Hs.
Qed.









(** *** Seasonal decomposition *)

Lemma length_convolve_full (a v : list Q) :
  length (Np.convolve_full a v) = (length a + length v - 1)%nat.
Proof. unfold Np.convolve_full. now rewrite length_map, length_seq. Qed.

Lemma convolve_same_length (a v : list Q) :
  a <> [] -> v <> [] ->
  exists t : list Q,
    Np.convolve_same a v = Ok t /\
    length t = Nat.max (length a) (length v).
Proof.
  intros Ha Hv. unfold Np.convolve_same.
  destruct a as [| x a]; [congruence |]. destruct v as [| y v]; [congruence |].
  eexists. split; [reflexivity |].
  rewrite length_firstn, length_skipn, length_convolve_full.
  set (n := length (x :: a)). set (m := length (y :: v)).
  assert (Hn : (0 < n)%nat) by (unfold n; simpl; lia).
  assert (Hm : (0 < m)%nat) by (unfold m; simpl; lia).
  assert (Hs : ((Nat.min n m - 1) / 2 <= Nat.min n m - 1)%nat)
    by (apply Nat.Div0.div_le_upper_bound; lia).
  lia.
Qed.

Lemma broadcast_same {A B C : Type} (f : A -> B -> C) (a : list A)
    (b : list B) :
  length a = length b ->
  Np.broadcast f a b = Ok (map (fun '(x, y) => f x y) (combine a b)).
Proof.
  intros H. unfold Np.broadcast. now rewrite H, Nat.eqb_refl.
Qed.

Lemma nth_zip {A B C : Type} (f : A -> B -> C) (a : list A) (b : list B)
    (i : nat) (da : A) (db : B) (dc : C) :
  (i < length a)%nat -> (i < length b)%nat ->
  nth i (map (fun '(x, y) => f x y) (combine a b)) dc
  = f (nth i a da) (nth i b db).
Proof.
  revert b i. induction a as [| x a IH]; intros [| y b] [| i] Ha Hb;
    simpl in *; try lia; [reflexivity |].
  apply IH; lia.
Qed.

Lemma length_zip {A B C : Type} (f : A * B -> C) (a : list A) (b : list B) :
  length a = length b -> length (map f (combine a b)) = length a.
Proof. intros H. rewrite length_map, length_combine. lia. Qed.

Lemma set_at_keeps {A : Type} (P : A -> Prop) (arr : list A) (i : nat)
    (x : A) :
  P x -> Forall P arr ->
  Forall P (Np.set_at arr i x) /\ length (Np.set_at arr i x) = length arr.
Proof.
  intros Hx. revert i. induction arr as [| h t IH]; intros i H.
  - split; [constructor | reflexivity].
  - inversion H; subst. destruct i as [| i]; simpl.
    + split; [now constructor | reflexivity].
    + destruct (IH i) as [F L]; [assumption |].
      split; [now constructor | now rewrite L].
Qed.

Lemma set_all_keeps {A : Type} (P : A -> Prop) (indices : list nat)
    (arr : list A) (x : A) :
  (indices <> [] -> P x) -> Forall P arr ->
  Forall P (Np.set_all arr indices x) /\
  length (Np.set_all arr indices x) = length arr.
Proof.
  unfold Np.set_all. revert arr.
  induction indices as [| i indices IH]; intros arr Hx H.
  - split; [exact H | reflexivity].
  - assert (Px : P x) by (apply Hx; discriminate).
    destruct (set_at_keeps P arr i x Px H) as [F L]. simpl.
    destruct (IH (Np.set_at arr i x) (fun _ => Px) F) as [F' L'].
    split; [exact F' | congruence].
Qed.

Lemma mean_finite (l : list Q) : l <> [] -> finite (Np.mean l).
Proof. destruct l; [congruence | intros _; exact I]. Qed.

(** The seasonal component stays an array of [n] finite numbers: a phase
    with no index assigns nothing, and any other assigns a mean of finitely
    many values. *)
Lemma seasonal_step_keeps (detrended : list Q) (n period : nat)
    (seasonal : list xnum) (i : nat) :
  Forall finite seasonal ->
  Forall finite (seasonal_step detrended n period seasonal i) /\
  length (seasonal_step detrended n period seasonal i) = length seasonal.
Proof.
  intros H. unfold seasonal_step. apply set_all_keeps; [| exact H].
  intros Hne. apply mean_finite. destruct (Np.arange i n period);
    [congruence | discriminate].
Qed.

Lemma seasonal_loop_keeps (detrended : list Q) (n period : nat)
    (phases : list nat) (seasonal : list xnum) :
  Forall finite seasonal ->
  Forall finite
    (fold_left (seasonal_step detrended n period) phases seasonal) /\
  length (fold_left (seasonal_step detrended n period) phases seasonal)
  = length seasonal.
Proof.
  revert seasonal. induction phases as [| i phases IH]; intros seasonal H.
  - split; [exact H | reflexivity].
  - destruct (seasonal_step_keeps detrended n period seasonal i H) as [F L].
    destruct (IH _ F) as [F' L']. simpl. split; [exact F' | congruence].
Qed.

Lemma zeros_finite (n : nat) : Forall finite (repeat (Fin 0) n).
Proof. apply Forall_forall. intros x Hx. apply repeat_spec in Hx. now subst. Qed.


(** *** [analyze] *)



End TrendFacts.



(** ** Properties of the specification *)

Section Properties.

Context {sci : SciLib} {skl : SkLearn}.

(** C1.  When the interquartile range of the input is zero, [detect_iqr]
    returns normally; every value that differs from the median is reported,
    at its position, with score [+inf]; nothing else is reported; and when
    every value equals the median, as in a constant sequence, the list is
    empty, so that no division takes place. *)
Theorem detect_iqr_zero_iqr (data : list Q) (multiplier q1 q3 : Q) (w : World) :
  Np.percentile data 25 = Ok q1 ->
  Np.percentile data 75 = Ok q3 ->
  q3 - q1 == 0 ->
  exists anomalies : list Anomaly,
    detect_iqr data multiplier w = (Ok anomalies, w) /\
    (forall i v, nth_error data i = Some v ->
                 ~ xeq (Fin v) (Np.median data) ->
                 exists a, In a anomalies /\ index a = i /\ value a = v /\
                           score a = PInf) /\
    (forall a, In a anomalies ->
               score a = PInf /\ method a = "IQR" /\
               nth_error data (index a) = Some (value a) /\
               ~ xeq (Fin (value a)) (Np.median data)) /\
    ((forall v, In v data -> xeq (Fin v) (Np.median data)) ->
     anomalies = []) /\
    (forall c : Q, Forall (fun v => v == c) data -> anomalies = []).
Proof.
  intros H1 H3 Hiqr.
  pose proof (percentile_nonempty _ _ _ H1) as Hne.
  destruct (NpInterp.quartiles_bracket_median data Hne)
    as (q1' & q3' & m & E1 & E3 & Hm & Hlo & Hhi).
  rewrite H1 in E1. rewrite H3 in E3.
  injection E1 as <-. injection E3 as <-.
  assert (Hq1 : q1 == m) by lra. assert (Hq3 : q3 == m) by lra.
  eexists. split; [apply detect_iqr_run; eassumption |].
  assert (Hflag : forall p, iqr_flagged (q1 - multiplier * (q3 - q1))
                                       (q3 + multiplier * (q3 - q1)) p = true
                            <-> ~ snd p == m).
  { intros p. unfold iqr_flagged. rewrite orb_true_iff, !Qltb_lt.
    assert (Hz : multiplier * (q3 - q1) == 0) by (rewrite Hiqr; ring).
    split.
    - intros [H | H] E; rewrite E in H; lra.
    - intros H. destruct (Q_dec (snd p) m) as [[L | G] | E];
        [left | right | contradiction]; lra. }
  rewrite Hm. simpl xeq.
  assert (Hempty : (forall v, In v data -> v == m) ->
                   map (iqr_record data (q3 - q1))
                       (filter (iqr_flagged (q1 - multiplier * (q3 - q1))
                                            (q3 + multiplier * (q3 - q1)))
                               (Np.enumerate data)) = []).
  { intros Hall.
    destruct (filter _ (Np.enumerate data)) as [| [i v] rest] eqn:Ef;
      [reflexivity | exfalso].
    assert (Hin : In (i, v) (filter
              (iqr_flagged (q1 - multiplier * (q3 - q1))
                           (q3 + multiplier * (q3 - q1))) (Np.enumerate data)))
      by (rewrite Ef; now left).
    apply filter_In in Hin. destruct Hin as [Hin Hf].
    apply Hflag in Hf. apply Hf. simpl.
    apply enumerate_nth_error, nth_error_In in Hin. exact (Hall v Hin). }
  split; [| split; [| split]].
  - intros i v Hnth Hv. exists (iqr_record data (q3 - q1) (i, v)).
    split; [| split; [reflexivity | split; [reflexivity |]]].
    + apply in_map, filter_In. split; [now apply enumerate_nth_error |].
      now apply Hflag.
    + simpl. now apply iqr_score_zero with (m := m).
  - intros a Ha. apply in_map_iff in Ha. destruct Ha as [[i v] [<- Hin]].
    apply filter_In in Hin. destruct Hin as [Hin Hf].
    apply Hflag in Hf. simpl in Hf. simpl.
    split; [now apply iqr_score_zero with (m := m) |].
    split; [reflexivity |]. split; [now apply enumerate_nth_error | exact Hf].
  - exact Hempty.
  - intros c Hall. apply Hempty.
    destruct (median_of_equal data c Hne Hall) as (m' & Hm' & Em').
    rewrite Hm in Hm'. injection Hm' as <-.
    rewrite Forall_forall in Hall. intros v Hv. rewrite (Hall v Hv). lra.
Qed.



(** C4 (amended).  On a strictly increasing sequence of [n >= 2] points the
    statistic [s] of the Mann-Kendall test is [n (n - 1) / 2], and the
    direction returned is "increasing" when [n >= 3]; on a strictly
    decreasing one [s] is [- (n (n - 1) / 2)] and the direction is
    "decreasing" when [n >= 3].  With [n = 2] the statistic is [1] or [-1],
    the continuity correction makes [z] zero, and the direction is
    "no trend". *)
Theorem mann_kendall_monotone (data : list Q) (self : TrendAnalyzer) :
  (2 <= length data)%nat ->
  let n := Z.of_nat (length data) in
  (strictly_increasing data ->
   mann_kendall_s data = (n * (n - 1) / 2)%Z /\
   exists z p,
     mann_kendall_test data self
     = (Ok (z, p, if (length data =? 2)%nat then "no trend" else "increasing"),
        self)) /\
  (strictly_decreasing data ->
   mann_kendall_s data = (- (n * (n - 1) / 2))%Z /\
   exists z p,
     mann_kendall_test data self
     = (Ok (z, p, if (length data =? 2)%nat then "no trend" else "decreasing"),
        self)).
Proof.
  intros Hn n. split; intros Hmono.
  - assert (Hs : (2 * mann_kendall_s data = 1 * (n * (n - 1)))%Z).
    { apply mann_kendall_s_uniform. intros s i j Hij.
      pose proof (increasing_pairs data Hmono i j Hij) as Hlt.
      assert (E : Qltb 0 (nth j data 0 - nth i data 0) = true)
        by (apply Qltb_lt; lra).
      cbv zeta. now rewrite E. }
    assert (Hs' : mann_kendall_s data = (n * (n - 1) / 2)%Z).
    { replace (n * (n - 1))%Z with (mann_kendall_s data * 2)%Z by lia.
      now rewrite Z.div_mul. }
    split; [exact Hs' |].
    unfold mann_kendall_test, ret. do 2 eexists. do 3 f_equal.
    rewrite mann_kendall_direction by exact Hn.
    destruct (Nat.eqb_spec (length data) 2) as [E | E].
    + assert (E1 : mann_kendall_s data = 1%Z) by nia.
      rewrite E1. reflexivity.
    + assert (G : (1 < mann_kendall_s data)%Z) by nia.
      apply Z.ltb_lt in G. now rewrite G.
  - assert (Hs : (2 * mann_kendall_s data = (-1) * (n * (n - 1)))%Z).
    { apply mann_kendall_s_uniform. intros s i j Hij.
      pose proof (decreasing_pairs data Hmono i j Hij) as Hlt.
      assert (E1 : Qltb 0 (nth j data 0 - nth i data 0) = false)
        by (apply Qltb_ge; lra).
      assert (E2 : Qltb (nth j data 0 - nth i data 0) 0 = true)
        by (apply Qltb_lt; lra).
      cbv zeta. rewrite E1, E2. lia. }
    assert (Hs' : mann_kendall_s data = (- (n * (n - 1) / 2))%Z).
    { replace (n * (n - 1))%Z with ((- mann_kendall_s data) * 2)%Z by lia.
      rewrite Z.div_mul by lia. lia. }
    split; [exact Hs' |].
    unfold mann_kendall_test, ret. do 2 eexists. do 3 f_equal.
    rewrite mann_kendall_direction by exact Hn.
    destruct (Nat.eqb_spec (length data) 2) as [E | E].
    + assert (E1 : mann_kendall_s data = (-1)%Z) by nia.
      rewrite E1. reflexivity.
    + assert (G : (mann_kendall_s data < -1)%Z) by nia.
      assert (G1 : (1 <? mann_kendall_s data)%Z = false)
        by (apply Z.ltb_ge; lia).
      apply Z.ltb_lt in G. now rewrite G1, G.
Qed.



(** C7.  The outcome of [detect_isolation_forest], and of [detect_all], is
    the same in any two states of the detector and of the global generator
    that agree on the configured contamination: the estimator is built
    anew with [random_state = 42] and draws from a generator of its own.  In
    particular a second call on the same input repeats the outcome of the
    first. *)
Theorem ensemble_deterministic (d : ndarray) (data : list Q) (w1 w2 : World) :
  contamination (detector w1) = contamination (detector w2) ->
  fst (detect_isolation_forest d w1) = fst (detect_isolation_forest d w2) /\
  fst (detect_all data w1) = fst (detect_all data w2) /\
  fst (detect_isolation_forest d (snd (detect_isolation_forest d w1)))
  = fst (detect_isolation_forest d w1) /\
  fst (detect_all data (snd (detect_all data w1))) = fst (detect_all data w1).
Proof.
  intros Hc.
  assert (Hall : forall u v : World,
             contamination (detector u) = contamination (detector v) ->
             fst (detect_all data u) = fst (detect_all data v)).
  { intros u v Huv. rewrite !detect_all_run.
    pose proof (detect_isolation_forest_outcome (Arr1 data) u v Huv) as Hf.
    destruct (nil_or_not data) as [-> | Hne];
      [rewrite !detect_iqr_empty; reflexivity |].
    destruct (quartiles_defined data Hne) as (q1 & q3 & H1 & H3).
    rewrite (detect_iqr_run _ (3 # 2) q1 q3 u H1 H3).
    rewrite (detect_iqr_run _ (3 # 2) q1 q3 v H1 H3).
    rewrite !detect_zscore_run.
    destruct (detect_isolation_forest (Arr1 data) u) as [[ru | eu] u'],
             (detect_isolation_forest (Arr1 data) v) as [[rv | ev] v'];
      simpl in Hf; try discriminate; now inversion Hf. }
  assert (Hkeep : forall u : World,
             contamination (detector (snd (detect_all data u)))
             = contamination (detector u)).
  { intros u. rewrite detect_all_run.
    destruct (detect_isolation_forest_state (Arr1 data) u) as [fitted Hf].
    destruct (detect_iqr data (3 # 2) u) as [[a | e] ?]; [| reflexivity].
    destruct (detect_zscore data 3 u) as [[b | e] ?]; [| reflexivity].
    destruct (detect_isolation_forest (Arr1 data) u) as [[r | e] u'];
      simpl in Hf; subst u'; reflexivity. }
  split; [now apply detect_isolation_forest_outcome |].
  split; [now apply Hall |].
  split.
  - apply detect_isolation_forest_outcome.
    destruct (detect_isolation_forest_state d w1) as [fitted ->]. reflexivity.
  - apply Hall, Hkeep.
Qed.




End Properties.

(** ** Concrete runs, against the stand-ins *)

Module Runs.

Import Reference.

(** C1 at [[1, 1, 1, 1, 1, 1, 1, 5]]: both quartiles are [1]. *)
Lemma detect_iqr_zero_iqr_run :
  exists q1 q3 : Q,
    Np.percentile [1; 1; 1; 1; 1; 1; 1; 5] 25 = Ok q1 /\
    Np.percentile [1; 1; 1; 1; 1; 1; 1; 5] 75 = Ok q3 /\
    q3 - q1 == 0 /\
    exists anomalies : list Anomaly,
      detect_iqr [1; 1; 1; 1; 1; 1; 1; 5] (3 # 2) fresh_world
      = (Ok anomalies, fresh_world) /\
      (forall i v, nth_error [1; 1; 1; 1; 1; 1; 1; 5] i = Some v ->
                   ~ xeq (Fin v) (Np.median [1; 1; 1; 1; 1; 1; 1; 5]) ->
                   exists a, In a anomalies /\ index a = i /\ value a = v /\
                             score a = PInf) /\
      (forall a, In a anomalies ->
                 score a = PInf /\ method a = "IQR" /\
                 nth_error [1; 1; 1; 1; 1; 1; 1; 5] (index a)
                 = Some (value a) /\
                 ~ xeq (Fin (value a))
                       (Np.median [1; 1; 1; 1; 1; 1; 1; 5])) /\
      ((forall v, In v [1; 1; 1; 1; 1; 1; 1; 5] ->
                  xeq (Fin v) (Np.median [1; 1; 1; 1; 1; 1; 1; 5])) ->
       anomalies = []) /\
      (forall c : Q, Forall (fun v => v == c) [1; 1; 1; 1; 1; 1; 1; 5] ->
                     anomalies = []).
Proof.
  do 2 eexists.
  split; [reflexivity |]. split; [reflexivity |].
  split; [vm_compute; reflexivity |].
  eapply (@detect_iqr_zero_iqr reference_sklearn);
    [reflexivity | reflexivity | vm_compute; reflexivity].
Defined.

(** The list C1 speaks of, at that input and at a constant one. *)
Example detect_iqr_zero_iqr_lists :
  fst (detect_iqr [1; 1; 1; 1; 1; 1; 1; 5] (3 # 2) fresh_world)
  = Ok [mkAnomaly 7 5 PInf "IQR" None] /\
  fst (detect_iqr [4; 4; 4; 4] (3 # 2) fresh_world) = Ok [].
Proof. split; vm_compute; reflexivity. Qed.

(** The scenario of the tests: in [[1, 2, 3, 4, 5, 100]] the quartiles are
    2.25 and 4.75, the upper fence is 8.5, and both [detect_iqr] and
    [detect_zscore] at threshold 2 flag position 5 alone. *)
Example outlier_scenario :
  (exists q1 q3 : Q,
      Np.percentile [1; 2; 3; 4; 5; 100] 25 = Ok q1 /\ q1 == 225 # 100 /\
      Np.percentile [1; 2; 3; 4; 5; 100] 75 = Ok q3 /\ q3 == 475 # 100 /\
      q3 + (3 # 2) * (q3 - q1) == 85 # 10) /\
  (exists a : Anomaly,
      fst (detect_iqr [1; 2; 3; 4; 5; 100] (3 # 2) fresh_world) = Ok [a] /\
      index a = 5%nat /\ value a = 100) /\
  (exists a : Anomaly,
      fst (@detect_zscore reference_scilib reference_sklearn
                          [1; 2; 3; 4; 5; 100] 2 fresh_world) = Ok [a] /\
      index a = 5%nat /\ value a = 100).
Proof.
  split; [| split].
  - do 2 eexists. split; [reflexivity |]. split; [vm_compute; reflexivity |].
    split; [reflexivity |]. split; vm_compute; reflexivity.
  - eexists. split; [vm_compute; reflexivity |]. split; reflexivity.
  - eexists. split; [vm_compute; reflexivity |]. split; reflexivity.
Qed.




(** C4: two increasing points have [s = 1 = n (n - 1) / 2], and the
    direction returned is "no trend". *)
Lemma mann_kendall_two_points :
  strictly_increasing [1; 2] /\
  mann_kendall_s [1; 2] = 1%Z /\
  exists z p : xnum,
    @mann_kendall_test reference_scilib [1; 2] analyzer
    = (Ok (z, p, "no trend"), analyzer).
Proof.
  split.
  - intros [| i] Hi; simpl in Hi; [reflexivity | lia].
  - split; [reflexivity |]. do 2 eexists. vm_compute. reflexivity.
Qed.

(** C4 at [[1, 2, 4, 8]]. *)
Lemma mann_kendall_monotone_run :
  (2 <= length [1; 2; 4; 8])%nat /\
  (strictly_increasing [1; 2; 4; 8] ->
   mann_kendall_s [1; 2; 4; 8] = 6%Z /\
   exists z p : xnum,
     @mann_kendall_test reference_scilib [1; 2; 4; 8] analyzer
     = (Ok (z, p, "increasing"), analyzer)) /\
  (strictly_decreasing [1; 2; 4; 8] ->
   mann_kendall_s [1; 2; 4; 8] = (-6)%Z /\
   exists z p : xnum,
     @mann_kendall_test reference_scilib [1; 2; 4; 8] analyzer
     = (Ok (z, p, "decreasing"), analyzer)).
Proof.
  split; [simpl; lia |].
  apply (@mann_kendall_monotone reference_scilib [1; 2; 4; 8] analyzer).
  simpl. lia.
Defined.


(** C7 at a fresh detector and a used one. *)
Lemma ensemble_deterministic_run :
  contamination (detector fresh_world) = contamination (detector used_world) /\
  fst (detect_isolation_forest (Arr1 [1; 2; 3; 4; 5; 100]) fresh_world)
  = fst (detect_isolation_forest (Arr1 [1; 2; 3; 4; 5; 100]) used_world) /\
  fst (@detect_all reference_scilib reference_sklearn
                   [1; 2; 3; 4; 5; 100] fresh_world)
  = fst (@detect_all reference_scilib reference_sklearn
                     [1; 2; 3; 4; 5; 100] used_world) /\
  fst (detect_isolation_forest
         (Arr1 [1; 2; 3; 4; 5; 100])
         (snd (detect_isolation_forest (Arr1 [1; 2; 3; 4; 5; 100])
                                       fresh_world)))
  = fst (detect_isolation_forest (Arr1 [1; 2; 3; 4; 5; 100]) fresh_world) /\
  fst (@detect_all reference_scilib reference_sklearn [1; 2; 3; 4; 5; 100]
         (snd (@detect_all reference_scilib reference_sklearn
                           [1; 2; 3; 4; 5; 100] fresh_world)))
  = fst (@detect_all reference_scilib reference_sklearn
                     [1; 2; 3; 4; 5; 100] fresh_world).
Proof.
  split; [reflexivity |].
  apply (@ensemble_deterministic reference_scilib reference_sklearn
           (Arr1 [1; 2; 3; 4; 5; 100]) [1; 2; 3; 4; 5; 100]
           fresh_world used_world).
  reflexivity.
Defined.


(** C9 at a run in which two of the three methods flag the last point. *)
Example anomaly_records_run :
  exists a c : Anomaly,
    fst (@detect_all reference_scilib reference_sklearn
                     [1; 2; 3; 4; 5; 100] fresh_world)
    = Ok [("iqr", [a]); ("zscore", []); ("isolation_forest", [c])] /\
    index a = 5%nat /\ index c = 5%nat /\
    value a = 100 /\ value c = 100.
Proof. do 2 eexists. split; [vm_compute; reflexivity |]. repeat split. Qed.


End Runs.

(** ** Further facts about the trend operations *)

Lemma fold_left_Zsum {A : Type} (f : Z -> A -> Z) (g : A -> Z) (l : list A) :
  (forall s x, In x l -> f s x = (s + g x)%Z) ->
  forall s, fold_left f l s = (s + Zsum (map g l))%Z.
Proof.
  induction l as [| x l IH]; intros H s; simpl; [lia |].
  rewrite H by now left.
  rewrite IH by (intros s' y Hy; apply H; now right). lia.
Qed.

Lemma Zsum_app (l l' : list Z) : Zsum (l ++ l') = (Zsum l + Zsum l')%Z.
Proof. induction l as [| x l IH]; simpl; [reflexivity | lia]. Qed.

Lemma Zsum_map_flat_map {A B : Type} (f : B -> Z) (h : A -> list B)
    (l : list A) :
  Zsum (map f (flat_map h l)) = Zsum (map (fun x => Zsum (map f (h x))) l).
Proof.
  induction l as [| x l IH]; simpl; [reflexivity |].
  now rewrite map_app, Zsum_app, IH.
Qed.

Lemma in_pairs (n i j : nat) : In (i, j) (pairs n) <-> (i < j < n)%nat.
Proof.
  unfold pairs. rewrite in_flat_map. split.
  - intros (i' & Hi & Hp). apply in_map_iff in Hp.
    destruct Hp as (j' & E & Hj). injection E as -> ->.
    apply in_range in Hi, Hj. lia.
  - intros H. exists i. split; [apply in_range; lia |].
    apply in_map, in_range. lia.
Qed.

Lemma length_pairs (n : nat) :
  (2 * Z.of_nat (length (pairs n)) = Z.of_nat n * (Z.of_nat n - 1))%Z.
Proof.
  unfold pairs, Np.range at 2. rewrite Nat.sub_0_r.
  assert (G : forall k, (k <= n - 1)%nat ->
     (2 * Z.of_nat (length (flat_map (fun i => map (pair i)
                                       (Np.range (i + 1) n)) (seq 0 k)))
      = Z.of_nat k * (2 * Z.of_nat n - Z.of_nat k - 1))%Z).
  { induction k as [| k IH]; intros Hk; [simpl; lia |].
    rewrite seq_S, flat_map_app, length_app. cbn [flat_map Nat.add].
    rewrite app_nil_r, length_map. unfold Np.range at 2.
    rewrite length_seq. specialize (IH ltac:(lia)).
    rewrite Nat2Z.inj_add, Nat2Z.inj_sub by lia.
    rewrite Nat2Z.inj_succ. nia. }
  destruct (Nat.eq_dec n 0) as [-> | Hn]; [reflexivity |].
  rewrite G by lia. rewrite Nat2Z.inj_sub by lia. simpl Z.of_nat. ring.
Qed.

(** The statistic of the Mann-Kendall test is the sum of the signs of the
    differences over all pairs. *)
Lemma mann_kendall_s_pairs (data : list Q) :
  mann_kendall_s data = Zsum (map (pair_sign data) (pairs (length data))).
Proof.
  unfold mann_kendall_s, pairs.
  rewrite fold_left_Zsum
    with (g := fun i => Zsum (map (fun j => pair_sign data (i, j))
                                  (Np.range (i + 1) (length data)))).
  - rewrite Z.add_0_l, Zsum_map_flat_map. f_equal. apply map_ext.
    intros i. now rewrite map_map.
  - intros s i _. apply fold_left_Zsum. intros s' j _.
    unfold pair_sign. cbn [fst snd]. cbv zeta.
    destruct (Qltb 0 _); [reflexivity |]. destruct (Qltb _ 0); lia.
Qed.

Lemma Zsum_bounds (l : list Z) (lo hi : Z) :
  Forall (fun x => lo <= x <= hi)%Z l ->
  (lo * Z.of_nat (length l) <= Zsum l <= hi * Z.of_nat (length l))%Z.
Proof.
  induction 1 as [| x l Hx Hl IH]; [simpl; lia |].
  cbn [Zsum fold_right length]. fold (Zsum l). rewrite Nat2Z.inj_succ. nia.
Qed.



Lemma pair_sign_range (data : list Q) (p : nat * nat) :
  (-1 <= pair_sign data p <= 1)%Z.
Proof.
  unfold pair_sign. cbv zeta.
  destruct (Qltb 0 _); [lia |]. destruct (Qltb _ 0); lia.
Qed.

Lemma pair_sign_spec (data : list Q) (p : nat * nat) :
  let diff := nth (snd p) data 0 - nth (fst p) data 0 in
  (0 < diff /\ pair_sign data p = 1%Z) \/
  (diff < 0 /\ pair_sign data p = (-1)%Z) \/
  (diff == 0 /\ pair_sign data p = 0%Z).
Proof.
  cbv zeta. unfold pair_sign. cbv zeta.
  destruct (Qltb 0 _) eqn:E1.
  - apply Qltb_lt in E1. now left.
  - apply Qltb_ge in E1. destruct (Qltb _ 0) eqn:E2.
    + apply Qltb_lt in E2. right. now left.
    + apply Qltb_ge in E2. right. right. split; [lra | reflexivity].
Qed.


Lemma length_affine (k c : Q) (data : list Q) :
  length (affine k c data) = length data.
Proof. apply length_map. Qed.



Lemma mann_kendall_s_bound (data : list Q) :
  (Z.abs (2 * mann_kendall_s data)
   <= Z.of_nat (length data) * (Z.of_nat (length data) - 1))%Z.
Proof.
  rewrite mann_kendall_s_pairs, <- length_pairs.
  pose proof (Zsum_bounds (map (pair_sign data) (pairs (length data)))
                          (-1) 1) as H.
  rewrite length_map in H.
  assert (F : Forall (fun x => (-1 <= x <= 1)%Z)
                     (map (pair_sign data) (pairs (length data)))).
  { apply Forall_map, Forall_forall. intros p _. apply pair_sign_range. }
  specialize (H F). lia.
Qed.

(** *** Medians under order-preserving maps, and between bounds *)

Lemma insert_related (R : Q -> Q -> Prop) (x y : Q) (l l' : list Q) :
  (forall x y a b, R x y -> R a b -> Qle_bool x a = Qle_bool y b) ->
  R x y -> Forall2 R l l' -> Forall2 R (Np.insert x l) (Np.insert y l').
Proof.
  intros Hord Hxy H. induction H as [| a b l l' Hab Hl IH]; simpl.
  - constructor; [exact Hxy | constructor].
  - rewrite (Hord x y a b Hxy Hab).
    destruct (Qle_bool y b); repeat (constructor; auto).
Qed.

Lemma sort_related (R : Q -> Q -> Prop) (l l' : list Q) :
  (forall x y a b, R x y -> R a b -> Qle_bool x a = Qle_bool y b) ->
  Forall2 R l l' -> Forall2 R (Np.sort l) (Np.sort l').
Proof.
  intros Hord. induction 1 as [| a b l l' Hab Hl IH]; simpl; [constructor |].
  now apply insert_related.
Qed.

Lemma nth_related (R : Q -> Q -> Prop) (l l' : list Q) (i : nat) :
  Forall2 R l l' -> (i < length l)%nat -> R (nth i l 0) (nth i l' 0).
Proof.
  intros H. revert i. induction H as [| a b l l' Hab Hl IH]; intros [| i] Hi;
    simpl in *; try lia; [exact Hab | apply IH; lia].
Qed.

(** [x' = k * x + c] with [k > 0] preserves the order. *)
Lemma affine_order (k c : Q) :
  0 < k ->
  forall x' x a' a : Q,
    x' == k * x + c -> a' == k * a + c -> Qle_bool x' a' = Qle_bool x a.
Proof.
  intros Hk x' x a' a Hx Ha.
  destruct (Qle_bool x a) eqn:E.
  - apply Qle_bool_iff in E. apply Qle_bool_iff. rewrite Hx, Ha. nra.
  - destruct (Qle_bool x' a') eqn:E'; [| reflexivity].
    apply Qle_bool_iff in E'. rewrite Hx, Ha in E'.
    assert (H : x <= a) by nra. apply Qle_bool_iff in H. congruence.
Qed.

Lemma sort_affine (k c : Q) (l' l : list Q) :
  0 < k ->
  Forall2 (fun x' x => x' == k * x + c) l' l ->
  Forall2 (fun x' x => x' == k * x + c) (Np.sort l') (Np.sort l).
Proof.
  intros Hk. apply sort_related. intros x' x a' a. now apply affine_order.
Qed.

(** The median follows a change of units. *)
Lemma median_affine (k c : Q) (l' l : list Q) :
  0 < k -> l <> [] ->
  Forall2 (fun x' x => x' == k * x + c) l' l ->
  exists m' m : Q,
    Np.median l' = Fin m' /\ Np.median l = Fin m /\ m' == k * m + c.
Proof.
  intros Hk Hne H. pose proof (Forall2_length H) as Hlen.
  pose proof (sort_affine k c l' l Hk H) as Hs.
  assert (Hn : forall i, (i < length l)%nat ->
                         nth i (Np.sort l') 0 == k * nth i (Np.sort l) 0 + c).
  { intros i Hi.
    apply (nth_related (fun x' x => x' == k * x + c) _ _ i Hs).
    now rewrite NpFacts.length_sort, Hlen. }
  unfold Np.median. destruct H as [| a' a l' l Ha Hl]; [congruence |].
  rewrite Hlen. set (n := length (a :: l)) in *.
  assert (Hpos : (0 < n)%nat) by (unfold n; simpl; lia).
  assert (Hhalf : (n / 2 < n)%nat) by (apply Nat.div_lt; lia).
  destruct (Nat.even n); do 2 eexists;
    (split; [reflexivity | split; [reflexivity |]]).
  - rewrite !Hn by lia. field.
  - apply Hn. lia.
Qed.


(** *** Pairwise slopes *)





Section MoreTrendFacts.


Context {sci : SciLib}.

(** The direction follows the statistic, whatever the length. *)
Lemma direction_follows_s (data : list Q) :
  direction_of (mann_kendall_z (mann_kendall_s data) (length data))
  = direction_by_s (mann_kendall_s data).
Proof.
  destruct (Nat.lt_ge_cases (length data) 2) as [Hn | Hn].
  - pose proof (mann_kendall_s_bound data) as B.
    assert (E : mann_kendall_s data = 0%Z) by nia.
    rewrite E. reflexivity.
  - now apply mann_kendall_direction.
Qed.

Lemma non_decreasing_pairs (data : list Q) :
  non_decreasing data ->
  forall i j, (i < j < length data)%nat -> nth i data 0 <= nth j data 0.
Proof.
  intros H i j [Hij Hj]. induction j as [| j IH]; [lia |].
  destruct (Nat.eq_dec i j) as [-> | Hne]; [now apply H |].
  apply Qle_trans with (nth j data 0); [apply IH; lia | now apply H].
Qed.

Lemma non_increasing_pairs (data : list Q) :
  non_increasing data ->
  forall i j, (i < j < length data)%nat -> nth j data 0 <= nth i data 0.
Proof.
  intros H i j [Hij Hj]. induction j as [| j IH]; [lia |].
  destruct (Nat.eq_dec i j) as [-> | Hne]; [now apply H |].
  apply Qle_trans with (nth j data 0); [now apply H | apply IH; lia].
Qed.

Lemma mann_kendall_s_sign (data : list Q) :
  (non_decreasing data -> (0 <= mann_kendall_s data)%Z) /\
  (non_increasing data -> (mann_kendall_s data <= 0)%Z).
Proof.
  rewrite mann_kendall_s_pairs.
  split; intros Hm.
  - pose proof (Zsum_bounds (map (pair_sign data) (pairs (length data)))
                            0 1) as B.
    assert (F : Forall (fun x => (0 <= x <= 1)%Z)
                       (map (pair_sign data) (pairs (length data)))).
    { apply Forall_map, Forall_forall. intros [i j] Hp. apply in_pairs in Hp.
      pose proof (non_decreasing_pairs data Hm i j Hp) as Hle.
      destruct (pair_sign_spec data (i, j)) as [[D ->] | [[D ->] | [D ->]]];
        cbn [fst snd] in D; try lia. lra. }
    specialize (B F). lia.
  - pose proof (Zsum_bounds (map (pair_sign data) (pairs (length data)))
                            (-1) 0) as B.
    assert (F : Forall (fun x => (-1 <= x <= 0)%Z)
                       (map (pair_sign data) (pairs (length data)))).
    { apply Forall_map, Forall_forall. intros [i j] Hp. apply in_pairs in Hp.
      pose proof (non_increasing_pairs data Hm i j Hp) as Hle.
      destruct (pair_sign_spec data (i, j)) as [[D ->] | [[D ->] | [D ->]]];
        cbn [fst snd] in D; try lia. lra. }
    specialize (B F). lia.
Qed.




End MoreTrendFacts.


(** ** Further facts about the seasonal decomposition *)

Lemma nth_set_at {A : Type} (arr : list A) (i j : nat) (x d : A) :
  (i < length arr)%nat ->
  nth i (Np.set_at arr j x) d = if (i =? j)%nat then x else nth i arr d.
Proof.
  revert i j. induction arr as [| h t IH]; intros i j Hi; simpl in Hi; [lia |].
  destruct j as [| j], i as [| i]; simpl; try reflexivity.
  apply IH. lia.
Qed.

Lemma length_set_at {A : Type} (arr : list A) (j : nat) (x : A) :
  length (Np.set_at arr j x) = length arr.
Proof.
  revert j. induction arr as [| h t IH]; intros [| j]; simpl; auto.
Qed.

Lemma nth_set_all {A : Type} (indices : list nat) (arr : list A) (i : nat)
    (x d : A) :
  (i < length arr)%nat ->
  nth i (Np.set_all arr indices x) d
  = if existsb (Nat.eqb i) indices then x else nth i arr d.
Proof.
  unfold Np.set_all. revert arr.
  induction indices as [| j indices IH]; intros arr Hi; simpl; [reflexivity |].
  rewrite IH by now rewrite length_set_at.
  rewrite nth_set_at by exact Hi.
  destruct (i =? j)%nat; simpl; [| reflexivity].
  now destruct (existsb _ indices).
Qed.

(** [np.arange(p, n, period)] lists the indices below [n] of phase [p]. *)
Lemma in_arange (p n period i : nat) :
  (p < period)%nat ->
  In i (Np.arange p n period) <-> (i < n)%nat /\ i mod period = p.
Proof.
  intros Hp. unfold Np.arange. rewrite in_map_iff.
  set (count := ((n - p + period - 1) / period)%nat).
  assert (Hcount : forall k, (k < count)%nat <-> (p + k * period < n)%nat).
  { intros k. unfold count. split; intros H.
    - assert (H1 : (period * S k <= n - p + period - 1)%nat).
      { apply Nat.le_trans with (period * ((n - p + period - 1) / period))%nat;
          [apply Nat.mul_le_mono_l; lia | apply Nat.Div0.mul_div_le]. }
      nia.
    - apply Nat.lt_le_trans with (S k); [lia |].
      apply Nat.div_le_lower_bound; [lia | nia]. }
  split.
  - intros (k & <- & Hk). apply in_seq in Hk. split; [apply Hcount; lia |].
    rewrite Nat.Div0.mod_add. apply Nat.mod_small. exact Hp.
  - intros [Hi Hm]. exists (i / period)%nat.
    pose proof (Nat.div_mod_eq i period) as E. rewrite Hm in E.
    split; [lia |]. apply in_seq. split; [lia |].
    simpl. apply Hcount. lia.
Qed.

Lemma existsb_arange (p n period i : nat) :
  (p < period)%nat -> (i < n)%nat ->
  existsb (Nat.eqb i) (Np.arange p n period) = (i mod period =? p)%nat.
Proof.
  intros Hp Hi. destruct (i mod period =? p)%nat eqn:E.
  - apply Nat.eqb_eq in E. apply existsb_exists. exists i.
    split; [now apply in_arange | apply Nat.eqb_refl].
  - apply Nat.eqb_neq in E.
    destruct (existsb _ _) eqn:X; [| reflexivity].
    apply existsb_exists in X. destruct X as (j & Hj & Ej).
    apply Nat.eqb_eq in Ej. subst j. apply in_arange in Hj; [| exact Hp].
    tauto.
Qed.

(** After the rounds for the phases below [done], an index of one of those
    phases holds the mean of its phase, and any other holds zero. *)
Lemma seasonal_loop_value (detrended : list Q) (n period done i : nat) :
  (done <= period)%nat -> (i < n)%nat ->
  nth i (fold_left (seasonal_step detrended n period) (seq 0 done)
                   (repeat (Fin 0) n)) NaN
  = if (i mod period <? done)%nat
    then phase_mean detrended n period (i mod period)
    else Fin 0.
Proof.
  intros Hd Hi. induction done as [| done IH].
  - simpl. apply nth_repeat_lt. exact Hi.
  - rewrite seq_S, fold_left_app. cbn [fold_left Nat.add].
    unfold seasonal_step at 1.
    destruct (seasonal_loop_keeps detrended n period (seq 0 done)
                (repeat (Fin 0) n) (zeros_finite n)) as [_ L].
    rewrite repeat_length in L.
    rewrite nth_set_all by lia.
    rewrite existsb_arange by lia.
    rewrite IH by lia.
    fold (phase_mean detrended n period done).
    destruct (i mod period =? done)%nat eqn:E.
    + apply Nat.eqb_eq in E. rewrite E.
      assert (G : (done <? S done)%nat = true) by (apply Nat.ltb_lt; lia).
      now rewrite G.
    + apply Nat.eqb_neq in E.
      destruct (i mod period <? done)%nat eqn:E1,
               (i mod period <? S done)%nat eqn:E2; try reflexivity;
        [apply Nat.ltb_lt in E1; apply Nat.ltb_ge in E2
        | apply Nat.ltb_ge in E1; apply Nat.ltb_lt in E2]; lia.
Qed.

(** The run of [seasonal_decompose] when the period fits in the input. *)
Lemma seasonal_decompose_run (data : list Q) (period : nat)
    (self : TrendAnalyzer) :
  (1 <= period)%nat -> (period <= length data)%nat ->
  exists t : list Q,
    length t = length data /\
    Np.convolve_same data (repeat (1 / Np.of_nat period) period) = Ok t /\
    let detrended := map (fun '(x, y) => x - y) (combine data t) in
    let seas :=
      fold_left (seasonal_step detrended (length data) period)
                (Np.range 0 period) (repeat (Fin 0) (length data)) in
    length seas = length data /\
    seasonal_decompose data period self
    = (Ok {| trend := t;
             seasonal := seas;
             residual := map (fun '(x, y) => xsub (Fin x) y)
                             (combine detrended seas) |}, self).
Proof.
  intros Hp Hn. set (n := length data) in *.
  destruct (convolve_same_length data (repeat (1 / Np.of_nat period) period))
    as (t & Ht & Lt).
  { intros ->. simpl in n. lia. }
  { destruct period; [lia | discriminate]. }
  rewrite repeat_length in Lt. fold n in Lt.
  assert (Lt' : length data = length t) by lia.
  exists t. split; [lia |]. split; [exact Ht |]. cbv zeta.
  set (detrended := map _ (combine data t)).
  destruct (seasonal_loop_keeps detrended n period (Np.range 0 period)
              (repeat (Fin 0) n) (zeros_finite n)) as [Fs Ls].
  rewrite repeat_length in Ls. split; [exact Ls |].
  unfold seasonal_decompose, bind, lift, ret. rewrite Ht.
  rewrite (broadcast_same Qminus data t Lt'). fold n. fold detrended.
  assert (Ld : length detrended = n) by (apply length_zip; exact Lt').
  rewrite broadcast_same by congruence. reflexivity.
Qed.

Lemma sum_from (l : list Q) (acc : Q) :
  fold_left Qplus l acc == acc + Np.sum l.
Proof.
  unfold Np.sum. revert acc. induction l as [| x l IH]; intros acc; simpl.
  - ring.
  - rewrite IH, (IH (0 + x)). ring.
Qed.

Lemma sum_cons (x : Q) (l : list Q) : Np.sum (x :: l) == x + Np.sum l.
Proof. unfold Np.sum at 1. simpl. rewrite sum_from. ring. Qed.

Lemma sum_app (l l' : list Q) : Np.sum (l ++ l') == Np.sum l + Np.sum l'.
Proof.
  induction l as [| x l IH]; simpl.
  - unfold Np.sum at 2. simpl. ring.
  - rewrite !sum_cons, IH. ring.
Qed.


Lemma sum_of_zeros (l : list Q) : Forall (fun x => x == 0) l -> Np.sum l == 0.
Proof.
  induction 1 as [| x l Hx Hl IH]; [reflexivity |].
  rewrite sum_cons, Hx, IH. ring.
Qed.

(** A sum with one term that may differ from zero is that term. *)
Lemma sum_single (f : nat -> Q) (n k : nat) :
  (k < n)%nat ->
  (forall i, (i < n)%nat -> i <> k -> f i == 0) ->
  Np.sum (map f (seq 0 n)) == f k.
Proof.
  revert k. induction n as [| n IH]; intros k Hk H; [lia |].
  rewrite seq_S, map_app, sum_app. cbn [map Nat.add].
  rewrite sum_cons. change (Np.sum []) with 0.
  destruct (Nat.eq_dec k n) as [-> | Hne].
  - rewrite sum_of_zeros; [ring |].
    apply Forall_map, Forall_forall. intros i Hi. apply in_seq in Hi.
    apply H; lia.
  - rewrite (IH k) by (try lia; intros i Hi Hik; apply H; lia).
    rewrite (H n) by lia. ring.
Qed.

(** Convolving with a one-point kernel scales the array. *)
Lemma convolve_full_unit (a : list Q) (c : Q) (k : nat) :
  (k < length a)%nat ->
  nth k (Np.convolve_full a [c]) 0 == nth k a 0 * c.
Proof.
  intros Hk. unfold Np.convolve_full. cbn [length].
  replace (length a + 1 - 1)%nat with (length a) by lia.
  set (g := fun k0 : nat =>
              Np.sum (map (fun i => if (i <=? k0)%nat
                                    then nth i a 0 * nth (k0 - i) [c] 0
                                    else 0)
                          (seq 0 (length a)))).
  rewrite nth_indep with (d' := g 0%nat)
    by now rewrite length_map, length_seq.
  rewrite (map_nth g (seq 0 (length a)) 0%nat k), seq_nth by exact Hk.
  cbn [Nat.add]. unfold g.
  rewrite sum_single with (k := k); [| exact Hk |].
  - rewrite Nat.leb_refl, Nat.sub_diag. reflexivity.
  - intros i Hi Hik. destruct (i <=? k)%nat eqn:E; [| reflexivity].
    apply Nat.leb_le in E.
    destruct (k - i)%nat as [| d] eqn:Ed; [lia |].
    cbn [nth]. destruct d; ring.
Qed.

Lemma convolve_same_unit (a : list Q) (c : Q) :
  a <> [] -> Np.convolve_same a [c] = Ok (Np.convolve_full a [c]).
Proof.
  intros Hne. destruct a as [| x a']; [congruence |].
  remember (x :: a') as a eqn:Ea.
  assert (Hlen : (1 <= length a)%nat) by (subst a; simpl; lia).
  assert (E : Np.convolve_same a [c]
              = Ok (firstn (Nat.max (length a) 1)
                           (skipn ((Nat.min (length a) 1 - 1) / 2)
                                  (Np.convolve_full a [c]))))
    by (subst a; reflexivity).
  rewrite E. f_equal.
  replace (Nat.min (length a) 1 - 1)%nat with 0%nat by lia.
  change (0 / 2)%nat with 0%nat. cbn [skipn].
  apply firstn_all2. rewrite length_convolve_full.
  change (length [c]) with 1%nat. lia.
Qed.

(** ** Further facts about the detectors *)

Lemma Forall2_filter {A B : Type} (R : A -> B -> Prop) (f : A -> bool)
    (g : B -> bool) (l : list A) (l' : list B) :
  (forall x y, R x y -> f x = g y) ->
  Forall2 R l l' -> Forall2 R (filter f l) (filter g l').
Proof.
  intros Hfg. induction 1 as [| x y l l' Hxy Hl IH]; simpl; [constructor |].
  rewrite (Hfg x y Hxy). destruct (g y); [constructor |]; assumption.
Qed.

Lemma Forall2_map2 {A B C D : Type} (R : A -> B -> Prop) (T : C -> D -> Prop)
    (f : A -> C) (g : B -> D) (l : list A) (l' : list B) :
  (forall x y, R x y -> T (f x) (g y)) ->
  Forall2 R l l' -> Forall2 T (map f l) (map g l').
Proof.
  intros Hfg. induction 1 as [| x y l l' Hxy Hl IH]; simpl; constructor; auto.
Qed.

Lemma affine_related (k c : Q) (data : list Q) :
  Forall2 (fun x' x => x' == k * x + c) (affine k c data) data.
Proof.
  induction data as [| x data IH]; simpl; constructor;
    [reflexivity | exact IH].
Qed.

Lemma enumerate_related (k c : Q) (data : list Q) :
  Forall2 (fun p' p : nat * Q => fst p' = fst p /\ snd p' == k * snd p + c)
          (Np.enumerate (affine k c data)) (Np.enumerate data).
Proof.
  unfold Np.enumerate. rewrite length_affine.
  generalize 0%nat as start.
  induction data as [| x data IH]; intros start; simpl; constructor.
  - split; reflexivity.
  - apply IH.
Qed.

(** Interpolation follows a change of units. *)
Lemma interpolate_affine (k c : Q) (s' s : list Q) (h : Q) :
  Forall2 (fun x' x => x' == k * x + c) s' s ->
  StronglySorted Qle s -> (0 < length s)%nat ->
  0 <= h -> h <= Np.of_nat (length s - 1) ->
  Np.interpolate s' h == k * Np.interpolate s h + c.
Proof.
  intros H Hs Hlen H0 Hn.
  destruct (NpInterp.interpolate_between s h Hs H0 Hn Hlen) as [R _].
  pose proof (Forall2_length H) as L.
  unfold Np.interpolate. rewrite L.
  rewrite (nth_related _ _ _ (Z.to_nat (Qfloor h)) H) by lia.
  rewrite (nth_related _ _ _
             (Nat.min (Z.to_nat (Qfloor h) + 1) (length s - 1)) H) by lia.
  ring.
Qed.

Lemma percentile_quartiles (data : list Q) :
  data <> [] ->
  Np.percentile data 25
  = Ok (Np.interpolate (Np.sort data)
          (Np.of_nat (length data - 1) * (25 / 100))) /\
  Np.percentile data 75
  = Ok (Np.interpolate (Np.sort data)
          (Np.of_nat (length data - 1) * (75 / 100))).
Proof. destruct data; [congruence | intros _; split; reflexivity]. Qed.

Lemma quartiles_affine (k c : Q) (data : list Q) :
  0 < k -> data <> [] ->
  exists q1 q3 m q1' q3' m' : Q,
    Np.percentile data 25 = Ok q1 /\ Np.percentile data 75 = Ok q3 /\
    Np.median data = Fin m /\
    Np.percentile (affine k c data) 25 = Ok q1' /\
    Np.percentile (affine k c data) 75 = Ok q3' /\
    Np.median (affine k c data) = Fin m' /\
    q1' == k * q1 + c /\ q3' == k * q3 + c /\ m' == k * m + c /\
    q1 <= m /\ m <= q3.
Proof.
  intros Hk Hne.
  destruct (NpInterp.quartiles_bracket_median data Hne)
    as (q1 & q3 & m & H1 & H3 & Hm & Hlo & Hhi).
  destruct (median_affine k c (affine k c data) data Hk Hne
              (affine_related k c data)) as (m' & m0 & Hm' & Hm0 & Em).
  rewrite Hm in Hm0. injection Hm0 as <-.
  assert (Hne' : affine k c data <> []).
  { intros E. apply Hne. apply length_zero_iff_nil.
    rewrite <- (length_affine k c), E. reflexivity. }
  destruct (percentile_quartiles data Hne) as [P1 P3].
  destruct (percentile_quartiles (affine k c data) Hne') as [P1' P3'].
  rewrite P1 in H1. rewrite P3 in H3.
  injection H1 as H1. injection H3 as H3.
  exists q1, q3, m. do 3 eexists.
  split; [rewrite P1, H1; reflexivity |].
  split; [rewrite P3, H3; reflexivity |].
  split; [exact Hm |]. split; [exact P1' |]. split; [exact P3' |].
  split; [exact Hm' |].
  pose proof (sort_affine k c (affine k c data) data Hk
                (affine_related k c data)) as Hs.
  pose proof (NpFacts.sort_sorted data) as Hsorted.
  assert (Hlen : (0 < length (Np.sort data))%nat).
  { rewrite NpFacts.length_sort. destruct data; [congruence | simpl; lia]. }
  pose proof (NpInterp.of_nat_nonneg (length data - 1)) as Hx.
  assert (E1 : 25 / 100 == 1 # 4) by reflexivity.
  assert (E3 : 75 / 100 == 3 # 4) by reflexivity.
  rewrite length_affine. rewrite <- H1, <- H3.
  split; [| split; [| split; [exact Em | split; [rewrite H1 | rewrite H3];
                                                  assumption]]];
    apply interpolate_affine; try assumption;
    rewrite ?NpFacts.length_sort, ?E1, ?E3; lra.
Qed.

Lemma Qltb_affine (k c x' x a' a : Q) :
  0 < k -> x' == k * x + c -> a' == k * a + c -> Qltb x' a' = Qltb x a.
Proof.
  intros Hk Hx Ha. unfold Qltb. f_equal. now apply affine_order with k c.
Qed.

(** The score of a value does not depend on the units. *)
Lemma score_affine (k v' v m' m r' r : Q) :
  0 < k -> v' - m' == k * (v - m) -> r' == k * r ->
  xeq (xdiv (xabs (xsub (Fin v') (Fin m'))) (Fin r'))
      (xdiv (xabs (xsub (Fin v) (Fin m))) (Fin r)).
Proof.
  intros Hk Hv Hr. unfold xsub. cbn [xadd xopp xabs xdiv].
  assert (Ea : Qabs (v' + - m') == k * Qabs (v + - m)).
  { setoid_replace (v' + - m') with (k * (v + - m)) by (rewrite <- Hv; ring).
    rewrite Qabs_Qmult, (Qabs_pos k) by lra. reflexivity. }
  pose proof (Qabs_nonneg (v + - m)) as Hn.
  destruct (Qeq_bool r 0) eqn:Er.
  - apply Qeq_bool_eq in Er.
    assert (Er' : Qeq_bool r' 0 = true)
      by (apply Qeq_eq_bool; rewrite Hr, Er; ring).
    rewrite Er'. unfold xscale_inf.
    destruct (Qeq_bool (Qabs (v + - m)) 0) eqn:Ez.
    + apply Qeq_bool_eq in Ez.
      assert (Ez' : Qeq_bool (Qabs (v' + - m')) 0 = true)
        by (apply Qeq_eq_bool; rewrite Ea, Ez; ring).
      rewrite Ez'. exact I.
    + apply Qeq_bool_false in Ez.
      assert (Ez' : Qeq_bool (Qabs (v' + - m')) 0 = false).
      { apply Qeq_bool_false. rewrite Ea. intros H. apply Ez.
        assert (G : k * Qabs (v + - m) == k * 0) by (rewrite H; ring).
        apply Qmult_inj_l in G; [exact G | lra]. }
      rewrite Ez'.
      assert (P : 0 < Qabs (v + - m)).
      { destruct (Qlt_le_dec 0 (Qabs (v + - m))) as [L | G]; [exact L |].
        exfalso. apply Ez. lra. }
      assert (P' : 0 < Qabs (v' + - m')) by (rewrite Ea; nra).
      apply Qltb_lt in P, P'. rewrite P, P'. exact I.
  - apply Qeq_bool_false in Er.
    assert (Er' : Qeq_bool r' 0 = false).
    { apply Qeq_bool_false. rewrite Hr. intros H. apply Er.
      assert (G : k * r == k * 0) by (rewrite H; ring).
      apply Qmult_inj_l in G; [exact G | lra]. }
    rewrite Er'. cbn [xeq]. rewrite Ea, Hr. field. split; [exact Er | lra].
Qed.

Lemma combine_seq_above {A : Type} (l : list A) (a : nat) :
  Forall (fun p : nat * A => (a <= fst p)%nat) (combine (seq a (length l)) l).
Proof.
  apply Forall_forall. intros [i x] H. apply in_combine_l, in_seq in H.
  simpl. lia.
Qed.

(** A filter of an enumeration keeps the positions in increasing order. *)
Lemma filter_positions_sorted {A : Type} (f : nat * A -> bool) (l : list A)
    (a : nat) :
  StronglySorted lt (map fst (filter f (combine (seq a (length l)) l))).
Proof.
  revert a. induction l as [| x l IH]; intros a; simpl; [constructor |].
  destruct (f (a, x)); [| apply IH].
  simpl. constructor; [apply IH |].
  apply Forall_map, Forall_forall. intros p Hp.
  apply filter_In in Hp as [Hp _].
  pose proof (combine_seq_above l (S a)) as H.
  rewrite Forall_forall in H. specialize (H p Hp). simpl in H. lia.
Qed.

Lemma enumerate_positions_sorted {A B : Type} (f : nat * A -> bool)
    (g : nat * A -> B) (pos : B -> nat) (l : list A) :
  (forall p, pos (g p) = fst p) ->
  StronglySorted lt (map pos (map g (filter f (Np.enumerate l)))).
Proof.
  intros H. rewrite map_map.
  rewrite (map_ext (fun p => pos (g p)) fst H).
  apply filter_positions_sorted.
Qed.

Lemma fold_raise_stays {A B : Type} (body : result B -> A -> result B)
    (l : list A) (e : exn) :
  (forall e x, body (Raise e) x = Raise e) ->
  fold_left body l (Raise e) = Raise e.
Proof.
  intros H. induction l as [| x l IH]; simpl; [reflexivity |].
  now rewrite H.
Qed.

Lemma Forall2_in_l {A B : Type} (R : A -> B -> Prop) (l : list A)
    (l' : list B) (x : A) :
  Forall2 R l l' -> In x l -> exists y, In y l' /\ R x y.
Proof.
  induction 1 as [| a b l l' Hab Hl IH]; simpl; [tauto |].
  intros [<- | Hx].
  - exists b. split; [now left | exact Hab].
  - destruct (IH Hx) as (y & Hy & Hxy). exists y. split; [now right | exact Hxy].
Qed.

Lemma Forall2_in_r {A B : Type} (R : A -> B -> Prop) (l : list A)
    (l' : list B) (y : B) :
  Forall2 R l l' -> In y l' -> exists x, In x l /\ R x y.
Proof.
  induction 1 as [| a b l l' Hab Hl IH]; simpl; [tauto |].
  intros [<- | Hy].
  - exists a. split; [now left | exact Hab].
  - destruct (IH Hy) as (x & Hx & Hxy). exists x. split; [now right | exact Hxy].
Qed.

Lemma nth_error_combine {A B : Type} (l : list A) (l' : list B) (i : nat)
    (x : A) (y : B) :
  nth_error (combine l l') i = Some (x, y)
  <-> nth_error l i = Some x /\ nth_error l' i = Some y.
Proof.
  revert l' i. induction l as [| a l IH]; intros l' i.
  - simpl. destruct i; simpl; split; (discriminate || intros [H _]; discriminate).
  - destruct l' as [| b l'].
    + simpl. destruct i; simpl; split;
        (discriminate || intros [_ H]; discriminate).
    + destruct i as [| i]; simpl.
      * split; [intros E; injection E as -> ->; split; reflexivity |].
        intros [E1 E2]. congruence.
      * apply IH.
Qed.

Section MoreDetectorFacts.

Context {sci : SciLib} {skl : SkLearn}.

Lemma iqr_score_affine (k c : Q) (data : list Q) (m' m r' r v' v : Q) :
  0 < k ->
  Np.median data = Fin m -> Np.median (affine k c data) = Fin m' ->
  m' == k * m + c -> v' == k * v + c -> r' == k * r ->
  xeq (iqr_score (affine k c data) r' v') (iqr_score data r v).
Proof.
  intros Hk Hm Hm' Em Ev Er. unfold iqr_score. rewrite Hm, Hm'.
  apply score_affine with k; [exact Hk | | exact Er].
  rewrite Ev, Em. ring.
Qed.

(** What the loop of [detect_isolation_forest] adds to its list: one
    record for each position whose label is -1, in the order of the
    positions. *)
Lemma forest_fold_spec (data : list (list Q)) (l : list (nat * (Z * Q))) :
  forall acc res,
    fold_left
      (fun acc '(i, (pred, score)) =>
         rbind acc (fun anomalies =>
           if (pred =? -1)%Z
           then rbind (first_column data i) (fun v =>
                  Ok (anomalies
                        ++ [mkAnomaly i v (Fin (Qabs score))
                                      "IsolationForest" None]))
           else Ok anomalies))
      l (Ok acc) = Ok res ->
    exists added,
      res = acc ++ added /\
      Forall2 (fun a q =>
                 first_column data (fst q) = Ok (value a) /\
                 a = mkAnomaly (fst q) (value a) (Fin (Qabs (snd (snd q))))
                               "IsolationForest" None)
              added (filter (fun q => (fst (snd q) =? -1)%Z) l).
Proof.
  induction l as [| [i [p s]] l IH]; intros acc res H.
  - simpl in H. injection H as <-. exists []. rewrite app_nil_r.
    split; [reflexivity | constructor].
  - cbn [fold_left rbind] in H. cbn [filter fst snd].
    destruct (p =? -1)%Z.
    + destruct (first_column data i) as [v | e] eqn:Ev; cbn [rbind] in H.
      * apply IH in H as (added & -> & F).
        exists (mkAnomaly i v (Fin (Qabs s)) "IsolationForest" None :: added).
        split; [now rewrite <- app_assoc |].
        constructor; [split; [exact Ev | reflexivity] | exact F].
      * rewrite fold_raise_stays in H; [discriminate |].
        intros e0 [j [p0 s0]]. reflexivity.
    + apply IH in H. exact H.
Qed.

Lemma forest_fold_total (data : list (list Q)) (l : list (nat * (Z * Q))) :
  (forall q, In q l -> exists v, first_column data (fst q) = Ok v) ->
  forall acc, exists res,
    fold_left
      (fun acc '(i, (pred, score)) =>
         rbind acc (fun anomalies =>
           if (pred =? -1)%Z
           then rbind (first_column data i) (fun v =>
                  Ok (anomalies
                        ++ [mkAnomaly i v (Fin (Qabs score))
                                      "IsolationForest" None]))
           else Ok anomalies))
      l (Ok acc) = Ok res.
Proof.
  induction l as [| [i [p s]] l IH]; intros Hq acc.
  - exists acc. reflexivity.
  - cbn [fold_left rbind].
    destruct (Hq (i, (p, s)) (or_introl eq_refl)) as [v Hv].
    cbn [fst] in Hv. rewrite Hv. cbn [rbind].
    destruct (p =? -1)%Z; apply IH; intros q Hin; apply Hq; now right.
Qed.

Lemma first_column_of_samples (data : list Q) (i : nat) (v : Q) :
  nth_error data i = Some v -> first_column (as_samples (Arr1 data)) i = Ok v.
Proof.
  intros H. unfold first_column, as_samples. rewrite nth_error_map, H.
  reflexivity.
Qed.


End MoreDetectorFacts.

Lemma sorted_positions_distinct (l : list nat) :
  StronglySorted lt l -> NoDup l.
Proof.
  induction 1 as [| x l Hs IH Hx]; constructor; [| exact IH].
  intros Hin. rewrite Forall_forall in Hx. specialize (Hx x Hin). lia.
Qed.





(** ** Further properties of the two modules *)

Section MoreProperties.

Context {sci : SciLib} {skl : SkLearn}.

(** X1.  The statistic of the Mann-Kendall test lies between its two
    extremes: [|s| <= n (n - 1) / 2] on every input of [n] points. *)
Theorem mann_kendall_s_within_extremes (data : list Q) :
  let n := Z.of_nat (length data) in
  (- (n * (n - 1) / 2) <= mann_kendall_s data <= n * (n - 1) / 2)%Z.
Proof.
  intros n. pose proof (mann_kendall_s_bound data) as B. fold n in B.
  assert (U : forall s : Z, (2 * s <= n * (n - 1) -> s <= n * (n - 1) / 2)%Z).
  { intros s Hs. apply Z.div_le_lower_bound; lia. }
  split.
  - specialize (U (- mann_kendall_s data)%Z). lia.
  - apply U. lia.
Qed.

(** X2.  [mann_kendall_test] returns on every input, the empty one
    included, with a finite [z] and a finite p-value: its one division is
    guarded by the sign of the statistic.  The direction is "increasing"
    exactly when [s > 1], "decreasing" exactly when [s < -1], and
    "no trend" otherwise; [z] has the sign the direction names. *)
Theorem mann_kendall_test_finite (data : list Q) (self : TrendAnalyzer) :
  exists z p : Q,
    mann_kendall_test data self
    = (Ok (Fin z, Fin p, direction_by_s (mann_kendall_s data)), self) /\
    ((1 < mann_kendall_s data)%Z <-> 0 < z) /\
    ((mann_kendall_s data < -1)%Z <-> z < 0).
Proof.
  unfold mann_kendall_test, ret. rewrite direction_follows_s.
  set (s := mann_kendall_s data).
  assert (Hz : exists z : Q,
             mann_kendall_z s (length data) = Fin z /\
             ((1 < s)%Z <-> 0 < z) /\ ((s < -1)%Z <-> z < 0)).
  { destruct (Z.eq_dec s 0) as [E | Hs].
    - exists 0. rewrite E. split; [reflexivity |]. split; split; intros H;
        try lia; lra.
    - assert (Hn : (2 <= length data)%nat).
      { pose proof (mann_kendall_s_bound data) as B. fold s in B.
        destruct (Nat.lt_ge_cases (length data) 2); [nia | assumption]. }
      destruct (mann_kendall_z_finite s (length data) Hn Hs) as (r & Hr & ->).
      eexists. split; [reflexivity |].
      set (a := inject_Z _).
      destruct (quotient_sign a r Hr) as (Hp & Hm & H0).
      assert (Ha : ((1 < s)%Z <-> 0 < a) /\ ((s < -1)%Z <-> a < 0)).
      { unfold a. destruct (0 <? s)%Z eqn:E;
          [apply Z.ltb_lt in E | apply Z.ltb_ge in E];
          change 0 with (inject_Z 0); rewrite <- !Zlt_Qlt; lia. }
      destruct Ha as [Ha1 Ha2].
      destruct (Q_dec a 0) as [[L | G] | E0].
      + specialize (Hm L). split; split; intros H; try lra.
        * apply Ha1 in H. lra.
        * now apply Ha2.
      + specialize (Hp G). split; split; intros H; try lra.
        * now apply Ha1.
        * apply Ha2 in H. lra.
      + specialize (H0 E0). split; split; intros H; try lra.
        * apply Ha1 in H. lra.
        * apply Ha2 in H. lra. }
  destruct Hz as (z & -> & H1 & H2).
  exists z. eexists. split; [reflexivity |]. now split.
Qed.


(** X4.  On a sequence that never falls the statistic is not negative and
    the direction is never "decreasing"; on one that never rises the
    statistic is not positive and the direction is never "increasing"; on
    one that does neither (all values equal) the statistic is zero and the
    direction is "no trend". *)
Theorem mann_kendall_weakly_monotone (data : list Q) (self : TrendAnalyzer) :
  exists z p direction,
    mann_kendall_test data self = (Ok (z, p, direction), self) /\
    (non_decreasing data ->
     (0 <= mann_kendall_s data)%Z /\ direction <> "decreasing") /\
    (non_increasing data ->
     (mann_kendall_s data <= 0)%Z /\ direction <> "increasing") /\
    (non_decreasing data -> non_increasing data ->
     mann_kendall_s data = 0%Z /\ direction = "no trend").
Proof.
  unfold mann_kendall_test, ret. do 3 eexists. split; [reflexivity |].
  rewrite direction_follows_s.
  destruct (mann_kendall_s_sign data) as [Hup Hdown].
  unfold direction_by_s.
  split; [| split].
  - intros H. specialize (Hup H). split; [exact Hup |].
    destruct (1 <? mann_kendall_s data)%Z; [discriminate |].
    destruct (mann_kendall_s data <? -1)%Z eqn:E; [| discriminate].
    apply Z.ltb_lt in E. lia.
  - intros H. specialize (Hdown H). split; [exact Hdown |].
    destruct (1 <? mann_kendall_s data)%Z eqn:E.
    + apply Z.ltb_lt in E. lia.
    + destruct (mann_kendall_s data <? -1)%Z; discriminate.
  - intros H1 H2. specialize (Hup H1). specialize (Hdown H2).
    assert (E : mann_kendall_s data = 0%Z) by lia.
    rewrite E. split; reflexivity.
Qed.





(** X9.  When [seasonal_decompose] fails and when it returns arrays of the
    wrong length.  An empty input or a period of zero raises [ValueError].
    An input of two or more points that is shorter than the period raises
    [ValueError] too: the trend has [period] entries and cannot be
    subtracted from the data.  A one-point input with a longer period does
    return, with a trend and a residual of [period] entries and a seasonal
    component of one. *)
Theorem seasonal_decompose_misfits (data : list Q) (period : nat)
    (self : TrendAnalyzer) :
  (data = [] \/ period = 0%nat ->
   seasonal_decompose data period self = (Raise ValueError, self)) /\
  ((2 <= length data)%nat -> (length data < period)%nat ->
   seasonal_decompose data period self = (Raise ValueError, self)) /\
  (length data = 1%nat -> (1 < period)%nat ->
   exists d : Decomposition,
     seasonal_decompose data period self = (Ok d, self) /\
     length (trend d) = period /\ length (seasonal d) = 1%nat /\
     length (residual d) = period).
Proof.
  split; [| split].
  - intros [-> | ->]; [reflexivity |].
    unfold seasonal_decompose, bind, lift. simpl repeat.
    unfold Np.convolve_same. now destruct data.
  - intros H2 Hlt.
    destruct (convolve_same_length data (repeat (1 / Np.of_nat period) period))
      as (t & Ht & Lt).
    { intros ->. simpl in H2. lia. }
    { destruct period; [lia | discriminate]. }
    rewrite repeat_length in Lt.
    unfold seasonal_decompose, bind, lift. rewrite Ht.
    unfold Np.broadcast.
    assert (E : (length data =? length t)%nat = false)
      by (apply Nat.eqb_neq; lia).
    rewrite E.
    assert (L2 : (2 <= length t)%nat) by lia. clear Lt Ht E.
    destruct data as [| x [| y data]]; simpl in H2; try lia.
    destruct t as [| u [| v t]]; simpl in L2; try lia. reflexivity.
  - intros H1 Hp.
    destruct data as [| x [| y data]]; simpl in H1; try lia. clear H1.
    destruct (convolve_same_length [x] (repeat (1 / Np.of_nat period) period))
      as (t & Ht & Lt); [discriminate | |].
    { destruct period; [lia | discriminate]. }
    rewrite repeat_length in Lt. simpl length in Lt.
    assert (Lt' : length t = period) by lia.
    unfold seasonal_decompose, bind, lift, ret. rewrite Ht.
    assert (Eb : Np.broadcast Qminus [x] t = Ok (map (Qminus x) t)).
    { unfold Np.broadcast.
      assert (E : (length [x] =? length t)%nat = false)
        by (apply Nat.eqb_neq; simpl; lia).
      now rewrite E. }
    rewrite Eb. simpl length.
    set (detrended := map (Qminus x) t).
    destruct (seasonal_loop_keeps detrended 1 period (Np.range 0 period)
                (repeat (Fin 0) 1) (zeros_finite 1)) as [_ Ls].
    set (seas := fold_left _ _ _) in *.
    rewrite repeat_length in Ls.
    destruct seas as [| s [| s' seas]]; simpl in Ls; try lia.
    assert (Ld : length detrended = period)
      by (unfold detrended; now rewrite length_map).
    assert (Er : Np.broadcast (fun d s0 => xsub (Fin d) s0) detrended [s]
                 = Ok (map (fun d => xsub (Fin d) s) detrended)).
    { unfold Np.broadcast.
      assert (E : (length detrended =? length [s])%nat = false)
        by (apply Nat.eqb_neq; simpl; lia).
      rewrite E. destruct detrended as [| u [| v rest]]; simpl in Ld; try lia.
      reflexivity. }
    rewrite Er. eexists. split; [reflexivity |].
    cbn [trend seasonal residual]. rewrite length_map.
    repeat split; assumption.
Qed.

(** X10.  When the period fits in the input, the seasonal component at an
    index is the mean of [data - trend] over the indices of that phase, so
    it repeats with the period: two indices that agree modulo [period]
    hold the same value. *)
Theorem seasonal_component_periodic (data : list Q) (period : nat)
    (self : TrendAnalyzer) :
  (1 <= period)%nat -> (period <= length data)%nat ->
  exists d : Decomposition,
    seasonal_decompose data period self = (Ok d, self) /\
    (forall i : nat,
        (i < length data)%nat ->
        nth i (seasonal d) NaN
        = Np.mean (map (fun k => nth k data 0 - nth k (trend d) 0)
                       (Np.arange (i mod period) (length data) period))) /\
    (forall i j : nat,
        (i < length data)%nat -> (j < length data)%nat ->
        i mod period = j mod period ->
        nth i (seasonal d) NaN = nth j (seasonal d) NaN).
Proof.
  intros Hp Hn.
  destruct (seasonal_decompose_run data period self Hp Hn)
    as (t & Lt & _ & Ls & Hrun).
  cbv zeta in Ls, Hrun. eexists. split; [exact Hrun |].
  cbn [trend seasonal].
  set (detrended := map (fun '(x, y) => x - y) (combine data t)) in *.
  assert (Hval : forall i, (i < length data)%nat ->
             nth i (fold_left (seasonal_step detrended (length data) period)
                              (Np.range 0 period)
                              (repeat (Fin 0) (length data))) NaN
             = phase_mean detrended (length data) period (i mod period)).
  { intros i Hi. unfold Np.range. rewrite Nat.sub_0_r.
    rewrite seasonal_loop_value by lia.
    assert (G : (i mod period <? period)%nat = true)
      by (apply Nat.ltb_lt, Nat.mod_upper_bound; lia).
    now rewrite G. }
  split.
  - intros i Hi. rewrite Hval by exact Hi. unfold phase_mean. f_equal.
    apply map_ext_in. intros k Hk.
    apply in_arange in Hk; [| apply Nat.mod_upper_bound; lia].
    unfold detrended. apply nth_zip; lia.
  - intros i j Hi Hj E. rewrite !Hval by assumption. now rewrite E.
Qed.


(** X12.  With a period of one the decomposition is trivial: the trend is
    the data itself, and the seasonal component and the residual are zero
    at every index. *)
Theorem seasonal_decompose_period_one (data : list Q) (self : TrendAnalyzer) :
  data <> [] ->
  exists d : Decomposition,
    seasonal_decompose data 1 self = (Ok d, self) /\
    forall i : nat,
      (i < length data)%nat ->
      nth i (trend d) 0 == nth i data 0 /\
      xeq (nth i (seasonal d) NaN) (Fin 0) /\
      xeq (nth i (residual d) NaN) (Fin 0).
Proof.
  intros Hne.
  assert (Hlen : (1 <= length data)%nat)
    by (destruct data; [congruence | simpl; lia]).
  destruct (seasonal_decompose_run data 1 self (le_n 1) Hlen)
    as (t & Lt & Ht & Ls & Hrun).
  cbv zeta in Ls, Hrun. eexists. split; [exact Hrun |].
  cbn [trend seasonal residual].
  set (detrended := map (fun '(x, y) => x - y) (combine data t)) in *.
  set (seas := fold_left _ _ _) in *.
  assert (Htrend : forall i, (i < length data)%nat -> nth i t 0 == nth i data 0).
  { intros i Hi. change (repeat (1 / Np.of_nat 1) 1) with [1 / Np.of_nat 1] in Ht.
    rewrite convolve_same_unit in Ht by exact Hne. injection Ht as <-.
    rewrite convolve_full_unit by exact Hi.
    change (Np.of_nat 1) with 1. field. }
  assert (Hdet : forall i, (i < length data)%nat -> nth i detrended 0 == 0).
  { intros i Hi. unfold detrended.
    rewrite nth_zip with (da := 0) (db := 0) by lia.
    rewrite Htrend by exact Hi. ring. }
  assert (Hseas : forall i, (i < length data)%nat ->
             exists s, nth i seas NaN = Fin s /\ s == 0).
  { intros i Hi. unfold seas, Np.range. rewrite Nat.sub_0_r.
    rewrite seasonal_loop_value by lia.
    rewrite Nat.mod_1_r. cbn [Nat.ltb Nat.leb]. unfold phase_mean.
    set (indices := Np.arange 0 (length data) 1).
    assert (Hin : In 0%nat indices)
      by (apply in_arange; [lia | split; [lia | reflexivity]]).
    unfold Np.mean.
    destruct (map (fun k => nth k detrended 0) indices) as [| v vs] eqn:Ev.
    { destruct indices; [contradiction | discriminate]. }
    eexists. split; [reflexivity |].
    rewrite sum_of_zeros; [unfold Qdiv; ring |].
    rewrite <- Ev. apply Forall_map, Forall_forall. intros k Hk.
    apply in_arange in Hk; [| lia]. apply Hdet. lia. }
  intros i Hi. split; [now apply Htrend |].
  destruct (Hseas i Hi) as (s & Es & Hs).
  rewrite nth_zip with (da := 0) (db := NaN)
    by (try lia; unfold detrended; rewrite length_zip; lia).
  rewrite Es. split; [exact Hs |].
  cbv beta. unfold xsub. cbn [xadd xopp xeq]. rewrite Hdet, Hs by exact Hi.
  ring.
Qed.

(** X13. [detect_iqr] does not depend on the units of the measurements:
    after the change of units [k * x + c] with [k > 0] it flags the same
    positions, each with the converted value and the same score. *)
Theorem detect_iqr_units (k c : Q) (data : list Q) (multiplier : Q)
    (w : World) :
  0 < k -> data <> [] ->
  exists found found' : list Anomaly,
    detect_iqr data multiplier w = (Ok found, w) /\
    detect_iqr (affine k c data) multiplier w = (Ok found', w) /\
    Forall2 (same_finding k c) found' found.
Proof.
  intros Hk Hne.
  destruct (quartiles_affine k c data Hk Hne)
    as (q1 & q3 & m & q1' & q3' & m' & H1 & H3 & Hm & H1' & H3' & Hm'
        & E1 & E3 & Em & _).
  do 2 eexists.
  split; [apply (detect_iqr_run data multiplier q1 q3 w H1 H3) |].
  split; [apply (detect_iqr_run _ multiplier q1' q3' w H1' H3') |].
  apply Forall2_map2
    with (R := fun p' p : nat * Q =>
                 fst p' = fst p /\ snd p' == k * snd p + c).
  - intros [i' v'] [i v] [Hi Hv]. cbn [fst snd] in Hi, Hv. subst i'.
    unfold same_finding, iqr_record. cbn [index value score method fst snd].
    split; [reflexivity |]. split; [exact Hv |]. split; [| reflexivity].
    apply iqr_score_affine with m' m; try assumption.
    rewrite E3, E1. ring.
  - apply Forall2_filter; [| apply enumerate_related].
    intros [i' v'] [i v] [Hi Hv]. cbn [fst snd] in Hi, Hv.
    unfold iqr_flagged. cbn [snd]. f_equal.
    + apply Qltb_affine with k c; [exact Hk | exact Hv |].
      rewrite E1, E3. ring.
    + apply Qltb_affine with k c; [exact Hk | | exact Hv].
      rewrite E1, E3. ring.
Qed.

(** X14. A stricter setting only removes findings: every record
    [detect_zscore] returns at a threshold it also returns at any lower
    threshold, and every record [detect_iqr] returns at a multiplier it
    also returns at any lower multiplier. *)
Theorem stricter_settings_flag_less (data : list Q) (lo hi : Q) (w : World) :
  lo <= hi ->
  (exists l1 l2 : list Anomaly,
      detect_zscore data lo w = (Ok l1, w) /\
      detect_zscore data hi w = (Ok l2, w) /\ incl l2 l1) /\
  (data <> [] ->
   exists l1 l2 : list Anomaly,
     detect_iqr data lo w = (Ok l1, w) /\
     detect_iqr data hi w = (Ok l2, w) /\ incl l2 l1).
Proof.
  intros Hle. split.
  - do 2 eexists. split; [apply detect_zscore_run |].
    split; [apply detect_zscore_run |].
    destruct (xeqb _ _); [apply incl_refl |].
    intros a Ha. apply in_map_iff in Ha as (p & <- & Hp).
    apply in_map_iff. exists p. split; [reflexivity |].
    apply filter_In in Hp as [Hin Hf]. apply filter_In.
    split; [exact Hin |].
    unfold zscore_flagged, xgtb in *.
    destruct (zscore_of _ _ _) as [z | | |]; cbn in Hf |- *;
      try exact Hf.
    apply Qltb_lt in Hf. apply Qltb_lt. lra.
  - intros Hne.
    destruct (NpInterp.quartiles_bracket_median data Hne)
      as (q1 & q3 & m & H1 & H3 & Hm & Hlo & Hhi).
    do 2 eexists. split; [apply (detect_iqr_run _ lo _ _ w H1 H3) |].
    split; [apply (detect_iqr_run _ hi _ _ w H1 H3) |].
    intros a Ha. apply in_map_iff in Ha as (p & <- & Hp).
    apply in_map_iff. exists p. split; [reflexivity |].
    apply filter_In in Hp as [Hin Hf]. apply filter_In.
    split; [exact Hin |].
    unfold iqr_flagged in *. apply Bool.orb_true_iff in Hf.
    apply Bool.orb_true_iff.
    destruct Hf as [Hf | Hf]; [left | right];
      apply Qltb_lt in Hf; apply Qltb_lt; nra.
Qed.



(** X17. Each of the three detectors lists its findings by increasing
    position, so no position is reported twice in one list. *)
Theorem detectors_report_in_order (data : list Q) (array : ndarray)
    (multiplier threshold : Q) (w w' : World) (found : list Anomaly) :
  detect_iqr data multiplier w = (Ok found, w') \/
  detect_zscore data threshold w = (Ok found, w') \/
  detect_isolation_forest array w = (Ok found, w') ->
  StronglySorted lt (map index found) /\ NoDup (map index found).
Proof.
  intros Hrun.
  assert (Hs : StronglySorted lt (map index found)).
  { destruct Hrun as [Hrun | [Hrun | Hrun]].
    - destruct (nil_or_not data) as [-> | Hne];
        [rewrite detect_iqr_empty in Hrun; discriminate |].
      destruct (NpInterp.quartiles_bracket_median data Hne)
        as (q1 & q3 & m & H1 & H3 & _).
      rewrite (detect_iqr_run _ multiplier _ _ w H1 H3) in Hrun.
      injection Hrun as <- _.
      apply enumerate_positions_sorted. intros p. reflexivity.
    - rewrite detect_zscore_run in Hrun. injection Hrun as <- _.
      destruct (xeqb _ _); [constructor |].
      apply enumerate_positions_sorted. intros p. reflexivity.
    - rewrite detect_isolation_forest_run in Hrun.
      destruct (fit_forest _ _ _) as [[trees gen'] | e]; [| discriminate].
      injection Hrun as Hloop _. unfold forest_loop in Hloop.
      apply forest_fold_spec in Hloop as (added & -> & F).
      cbn [app].
      assert (E : map index added
                  = map fst (filter (fun q : nat * (Z * Q) =>
                                       (fst (snd q) =? -1)%Z)
                               (Np.enumerate
                                  (combine
                                     (predict trees (as_samples array))
                                     (score_samples trees
                                        (as_samples array)))))).
      { clear - F. induction F as [| x y l l' [_ Hxy] _ IH]; simpl;
          [reflexivity |].
        rewrite IH. f_equal. rewrite Hxy. reflexivity. }
      rewrite E. apply filter_positions_sorted. }
  split; [exact Hs | apply sorted_positions_distinct; exact Hs].
Qed.

(** X18. When the fit succeeds and the library returns one label and one
    score for each sample, [detect_isolation_forest] on a one-dimensional
    array succeeds, keeps the fitted estimator, and returns exactly the
    records of the positions labelled -1, each with the value at the
    position and the absolute value of its score. *)
Theorem detect_isolation_forest_labels (data : list Q) (w : World)
    (trees : forest) (gen' : rng) :
  fit_forest (contamination (detector w)) (rng_of_seed 42)
             (as_samples (Arr1 data)) = Ok (trees, gen') ->
  length (predict trees (as_samples (Arr1 data))) = length data ->
  length (score_samples trees (as_samples (Arr1 data))) = length data ->
  exists found : list Anomaly,
    detect_isolation_forest (Arr1 data) w
    = (Ok found, with_forest w (Some trees)) /\
    forall a : Anomaly,
      In a found <->
      exists (i : nat) (v s : Q),
        nth_error data i = Some v /\
        nth_error (predict trees (as_samples (Arr1 data))) i = Some (-1)%Z /\
        nth_error (score_samples trees (as_samples (Arr1 data))) i = Some s /\
        a = mkAnomaly i v (Fin (Qabs s)) "IsolationForest" None.
Proof.
  intros Hfit Lp Ls. rewrite detect_isolation_forest_run, Hfit.
  unfold forest_loop.
  set (X := as_samples (Arr1 data)) in *.
  assert (Htot : forall q : nat * (Z * Q),
             In q (Np.enumerate (combine (predict trees X)
                                         (score_samples trees X))) ->
             exists v, first_column X (fst q) = Ok v).
  { intros [i ps] Hq. apply enumerate_nth_error in Hq.
    assert (Hi : (i < length (combine (predict trees X)
                                      (score_samples trees X)))%nat)
      by (apply nth_error_Some; congruence).
    rewrite length_combine, Lp, Ls, Nat.min_id in Hi.
    destruct (nth_error data i) as [x |] eqn:Ex;
      [| apply nth_error_None in Ex; lia].
    exists x. apply first_column_of_samples. exact Ex. }
  destruct (forest_fold_total X _ Htot []) as [res Hres].
  exists res. rewrite Hres. split; [reflexivity |].
  destruct (forest_fold_spec X _ [] res Hres) as (added & -> & F).
  cbn [app]. intros a. split.
  - intros Ha.
    destruct (Forall2_in_l _ _ _ a F Ha) as ([i [p s]] & Hq & Hc & Ea).
    apply filter_In in Hq as [Hq Hp]. cbn [fst snd] in Hp, Hc, Ea.
    apply Z.eqb_eq in Hp. subst p.
    apply enumerate_nth_error, nth_error_combine in Hq as [Hq1 Hq2].
    exists i, (value a), s. split; [apply first_column_samples; exact Hc |].
    split; [exact Hq1 |]. split; [exact Hq2 | exact Ea].
  - intros (i & v & s & Hd & Hp & Hs & ->).
    assert (Hq : In (i, ((-1)%Z, s))
                   (filter (fun q : nat * (Z * Q) => (fst (snd q) =? -1)%Z)
                      (Np.enumerate (combine (predict trees X)
                                             (score_samples trees X))))).
    { apply filter_In. split; [| reflexivity].
      apply enumerate_nth_error, nth_error_combine. split; assumption. }
    destruct (Forall2_in_r _ _ _ _ F Hq) as (a & Ha & Hc & Ea).
    cbn [fst snd] in Hc, Ea. apply first_column_samples in Hc.
    rewrite Hd in Hc. injection Hc as Hv. rewrite Hv, <- Ea. exact Ha.
Qed.

(** X19. A fit that raises makes [detect_isolation_forest] raise the same
    exception and leaves the detector holding a new estimator that is not
    fitted, whatever it held before; [detect_all] on a non-empty array then
    raises it too and leaves the same detector, while on an empty array it
    raises [IndexError] before any estimator is built. *)
Theorem failed_fit_leaves_unfitted (data : list Q) (w : World) (e : exn) :
  fit_forest (contamination (detector w)) (rng_of_seed 42)
             (as_samples (Arr1 data)) = Raise e ->
  detect_isolation_forest (Arr1 data) w = (Raise e, with_forest w None) /\
  (data <> [] -> detect_all data w = (Raise e, with_forest w None)) /\
  (data = [] -> detect_all data w = (Raise IndexError, w)).
Proof.
  intros Hfit.
  assert (Hf : detect_isolation_forest (Arr1 data) w
               = (Raise e, with_forest w None))
    by (rewrite detect_isolation_forest_run, Hfit; reflexivity).
  split; [exact Hf |]. split.
  - intros Hne. rewrite detect_all_run.
    destruct (NpInterp.quartiles_bracket_median data Hne)
      as (q1 & q3 & m & H1 & H3 & _).
    rewrite (detect_iqr_run _ (3 # 2) _ _ w H1 H3), detect_zscore_run, Hf.
    reflexivity.
  - intros ->. rewrite detect_all_run, detect_iqr_empty. reflexivity.
Qed.

End MoreProperties.

(** ** Concrete runs of the further properties *)

Module MoreRuns.

Import Reference.





(** X10 at six points and period two. *)
Lemma seasonal_component_periodic_run :
  (1 <= 2)%nat /\ (2 <= length [1; 2; 3; 4; 5; 6])%nat /\
  exists d : Decomposition,
    seasonal_decompose [1; 2; 3; 4; 5; 6] 2 analyzer = (Ok d, analyzer) /\
    (forall i : nat,
        (i < length [1; 2; 3; 4; 5; 6])%nat ->
        nth i (seasonal d) NaN
        = Np.mean (map (fun k => nth k [1; 2; 3; 4; 5; 6] 0
                                 - nth k (trend d) 0)
                       (Np.arange (i mod 2) (length [1; 2; 3; 4; 5; 6]) 2))) /\
    (forall i j : nat,
        (i < length [1; 2; 3; 4; 5; 6])%nat ->
        (j < length [1; 2; 3; 4; 5; 6])%nat ->
        i mod 2 = j mod 2 ->
        nth i (seasonal d) NaN = nth j (seasonal d) NaN).
Proof.
  split; [lia |]. split; [simpl; lia |].
  apply (seasonal_component_periodic [1; 2; 3; 4; 5; 6] 2 analyzer);
    simpl; lia.
Defined.


(** X12 at [[3, 1, 4]]. *)
Lemma seasonal_decompose_period_one_run :
  [3; 1; 4] <> [] /\
  exists d : Decomposition,
    seasonal_decompose [3; 1; 4] 1 analyzer = (Ok d, analyzer) /\
    forall i : nat,
      (i < length [3; 1; 4])%nat ->
      nth i (trend d) 0 == nth i [3; 1; 4] 0 /\
      xeq (nth i (seasonal d) NaN) (Fin 0) /\
      xeq (nth i (residual d) NaN) (Fin 0).
Proof.
  split; [discriminate |].
  apply (seasonal_decompose_period_one [3; 1; 4] analyzer). discriminate.
Defined.

(** X13 at [[1, 2, 3, 4, 5, 100]], from degrees Celsius to Fahrenheit. *)
Lemma detect_iqr_units_run :
  0 < (9 # 5) /\ [1; 2; 3; 4; 5; 100] <> [] /\
  exists found found' : list Anomaly,
    detect_iqr [1; 2; 3; 4; 5; 100] (3 # 2) fresh_world
    = (Ok found, fresh_world) /\
    detect_iqr (affine (9 # 5) 32 [1; 2; 3; 4; 5; 100]) (3 # 2) fresh_world
    = (Ok found', fresh_world) /\
    Forall2 (same_finding (9 # 5) 32) found' found.
Proof.
  split; [reflexivity |]. split; [discriminate |].
  apply (@detect_iqr_units reference_sklearn (9 # 5) 32
           [1; 2; 3; 4; 5; 100] (3 # 2) fresh_world);
    [reflexivity | discriminate].
Defined.

(** X14 at [[1, 2, 3, 4, 5, 100]] with the settings 1 and 2. *)
Lemma stricter_settings_flag_less_run :
  1 <= 2 /\
  (exists l1 l2 : list Anomaly,
      @detect_zscore reference_scilib reference_sklearn
                     [1; 2; 3; 4; 5; 100] 1 fresh_world
      = (Ok l1, fresh_world) /\
      @detect_zscore reference_scilib reference_sklearn
                     [1; 2; 3; 4; 5; 100] 2 fresh_world
      = (Ok l2, fresh_world) /\ incl l2 l1) /\
  ([1; 2; 3; 4; 5; 100] <> [] ->
   exists l1 l2 : list Anomaly,
     detect_iqr [1; 2; 3; 4; 5; 100] 1 fresh_world = (Ok l1, fresh_world) /\
     detect_iqr [1; 2; 3; 4; 5; 100] 2 fresh_world = (Ok l2, fresh_world) /\
     incl l2 l1).
Proof.
  split; [discriminate |].
  apply (@stricter_settings_flag_less reference_scilib reference_sklearn
           [1; 2; 3; 4; 5; 100] 1 2 fresh_world).
  discriminate.
Defined.



(** X17 at the list [detect_iqr] returns for [[1, 2, 3, 4, 5, 100]]. *)
Lemma detectors_report_in_order_run :
  exists found : list Anomaly,
    (detect_iqr [1; 2; 3; 4; 5; 100] (3 # 2) fresh_world
     = (Ok found, fresh_world) \/
     @detect_zscore reference_scilib reference_sklearn
                    [1; 2; 3; 4; 5; 100] 3 fresh_world
     = (Ok found, fresh_world) \/
     detect_isolation_forest (Arr1 [1; 2; 3; 4; 5; 100]) fresh_world
     = (Ok found, fresh_world)) /\
    StronglySorted lt (map index found) /\ NoDup (map index found).
Proof.
  eexists. split; [left; reflexivity |].
  eapply (@detectors_report_in_order reference_scilib reference_sklearn
            [1; 2; 3; 4; 5; 100] (Arr1 [1; 2; 3; 4; 5; 100]) (3 # 2) 3
            fresh_world fresh_world).
  left. reflexivity.
Defined.

(** X18 at [[1, 2, 3, 100]] with the stand-in forest. *)
Lemma detect_isolation_forest_labels_run :
  exists (trees : @forest reference_sklearn) (gen' : @rng reference_sklearn),
    fit_forest (contamination (detector fresh_world)) (rng_of_seed 42)
               (as_samples (Arr1 [1; 2; 3; 100])) = Ok (trees, gen') /\
    length (predict trees (as_samples (Arr1 [1; 2; 3; 100])))
    = length [1; 2; 3; 100] /\
    length (score_samples trees (as_samples (Arr1 [1; 2; 3; 100])))
    = length [1; 2; 3; 100] /\
    exists found : list Anomaly,
      detect_isolation_forest (Arr1 [1; 2; 3; 100]) fresh_world
      = (Ok found, with_forest fresh_world (Some trees)) /\
      forall a : Anomaly,
        In a found <->
        exists (i : nat) (v s : Q),
          nth_error [1; 2; 3; 100] i = Some v /\
          nth_error (predict trees (as_samples (Arr1 [1; 2; 3; 100]))) i
          = Some (-1)%Z /\
          nth_error (score_samples trees (as_samples (Arr1 [1; 2; 3; 100]))) i
          = Some s /\
          a = mkAnomaly i v (Fin (Qabs s)) "IsolationForest" None.
Proof.
  do 2 eexists. split; [reflexivity |].
  split; [reflexivity |]. split; [reflexivity |].
  eapply (@detect_isolation_forest_labels reference_sklearn
            [1; 2; 3; 100] fresh_world); reflexivity.
Defined.

(** X19 at the empty array, on which the stand-in fit raises. *)
Lemma failed_fit_leaves_unfitted_run :
  @fit_forest reference_sklearn (contamination (detector used_world))
              (rng_of_seed 42) (as_samples (Arr1 [])) = Raise ValueError /\
  detect_isolation_forest (Arr1 []) used_world
  = (Raise ValueError, with_forest used_world None) /\
  (@nil Q <> [] ->
   @detect_all reference_scilib reference_sklearn [] used_world
   = (Raise ValueError, with_forest used_world None)) /\
  (@nil Q = [] ->
   @detect_all reference_scilib reference_sklearn [] used_world
   = (Raise IndexError, used_world)).
Proof.
  split; [reflexivity |].
  apply (@failed_fit_leaves_unfitted reference_scilib reference_sklearn []
           used_world ValueError).
  reflexivity.
Defined.

End MoreRuns.
